(** * TwitchTrackerScraper: the pagination-and-extraction logic of
      [app.py] (range extractor, service handlers) and [scraper.py]
      (full extractor), embedded in Rocq and checked against its
      specification.

    Conventions of the embedding.
    - A Python [int] is a [Z]; a Python [str] is a [string] holding the
      UTF-8 bytes of the text, so that [s.encode('utf-8')] yields the
      bytes of the representation itself.  The tests the code performs
      on strings (emptiness, [startswith('/')], equality, membership in
      a list) give the same answer on code points and on UTF-8 bytes.
    - A Python [float] is a finite binary64 number, kept as the exact
      dyadic rational [mant * 2 ^ expo].
    - The network, the clock and the file system are an explicit
      [world] threaded through the functions that touch them; the
      remote site is a parameter, any function from requests to
      answers.
    - BeautifulSoup is taken as given: a page is kept as the answers to
      the queries the scripts make on it.
    - BeautifulSoup is taken to accept every page it is given.
    - Flask, the JSON decoder, [int] and [str.strip] are taken as given
      too: a request is kept as the outcomes of the three reads that
      the handlers make on it, each of which may raise.
    - [print] calls write to standard output, which is taken to be
      open and to encode in UTF-8; they are left out, but for the one
      that can then raise: the first [print] of
      [scrape_usernames_range], on a language with a lone surrogate.
    - Lists and integers are unbounded and a run may take any time:
      [MemoryError] is outside the model.

    The definitions come first, in the order of the sources; then the
    lemmas; then the claims [C1] to [C10] about the specification, and
    further properties [X1] to [X21]. *)

From Stdlib Require Import ZArith Lia List Bool Ascii String SpecFloat.
From stdpp Require Import base list strings pretty gmap.
Import ListNotations.

Local Open Scope Z_scope.

(** ** Python numerics used by [calculate_pages_needed] *)

Module PyNum.

(** Exceptions that the arithmetic of [calculate_pages_needed] can
    raise. *)
Inductive exn :=
| OverflowError
| ZeroDivisionError.

Inductive result (A : Type) :=
| Ok (a : A)
| Raise (e : exn).
Arguments Ok {A} a.
Arguments Raise {A} e.

(** A finite binary64 value [mant * 2 ^ expo]. *)
Record float := Float { mant : Z; expo : Z }.

(** Round-half-to-even of the rational [n / d], for [0 <= n] and
    [0 < d]. *)
Definition round_half_even (n d : Z) : Z :=
  let q := n / d in
  let r := n mod d in
  if 2 * r <? d then q
  else if d <? 2 * r then q + 1
  else if Z.even q then q else q + 1.

(** [a / (b * 2 ^ e)] as a fraction of integers, also for negative
    [e]. *)
Definition scaled_num (a e : Z) : Z := a * 2 ^ Z.max 0 (- e).
Definition scaled_den (b e : Z) : Z := b * 2 ^ Z.max 0 e.

(** [floor (log2 (a / b))] for positive [a] and [b]. *)
Definition quot_log2 (a b : Z) : Z :=
  let l := Z.log2 a - Z.log2 b in
  if scaled_den b l <=? scaled_num a l then l else l - 1.

(** [a / b] on positive integers: the quotient of the two integers
    correctly rounded (to nearest, ties to even) to binary64, as
    CPython's [long_true_divide] computes it.  The exponent of the
    result is that of a 53-bit significand, not below the subnormal
    exponent [-1074]; a result of [2 ^ 1024] or more raises
    [OverflowError]. *)
Definition truediv_pos (a b : Z) : result float :=
  let e := Z.max (quot_log2 a b - 52) (- 1074) in
  let m := round_half_even (scaled_num a e) (scaled_den b e) in
  if 2 ^ 1024 <=? m * 2 ^ Z.max 0 e then Raise OverflowError
  else Ok (Float m e).

(** Python's [a / b] on integers. *)
Definition truediv (a b : Z) : result float :=
  if b =? 0 then Raise ZeroDivisionError
  else if a =? 0 then Ok (Float 0 0)
  else
    match truediv_pos (Z.abs a) (Z.abs b) with
    | Ok x => Ok (Float (Z.sgn a * Z.sgn b * mant x) (expo x))
    | Raise e => Raise e
    end.

(** [math.ceil] of a finite float, an exact integer. *)
Definition ceil (x : float) : Z :=
  if 0 <=? expo x then mant x * 2 ^ expo x
  else - ((- mant x) / 2 ^ (- expo x)).

(** [list(range(a, b))]. *)
Definition range (a b : Z) : list Z :=
  map (fun i => a + Z.of_nat i) (seq 0 (Z.to_nat (b - a))).

(** The exact ceiling of [n / d], for [0 < d]. *)
Definition ceil_div (n d : Z) : Z := - ((- n) / d).

End PyNum.
Import PyNum.

(** ** [app.py]: [calculate_pages_needed] *)

(** <<
    start_page = ceil(start / 50)
    end_page = ceil(end / 50)
    return list(range(start_page, end_page + 1))
    >> *)
Definition calculate_pages_needed (start end_ : Z) : result (list Z) :=
  match truediv start 50 with
  | Raise e => Raise e
  | Ok qs =>
      let start_page := ceil qs in
      match truediv end_ 50 with
      | Raise e => Raise e
      | Ok qe =>
          let end_page := ceil qe in
          Ok (range start_page (end_page + 1))
      end
  end.

(** ** Python lists and strings *)

(** [bool(s)] for a [str]: non-empty. *)
Definition truthy (s : string) : bool := negb (String.eqb s "").

(** [s.startswith(p)]. *)
Definition startswith (s p : string) : bool := String.prefix p s.

(** [x in l] for a list of strings: the elements are compared with
    [x] in turn. *)
Definition py_in (x : string) (l : list string) : bool :=
  existsb (String.eqb x) l.

(** [l[i:j]] with Python's treatment of negative and out-of-range
    bounds. *)
Definition py_slice {A} (l : list A) (i j : Z) : list A :=
  let n := Z.of_nat (length l) in
  let clamp k := if k <? 0 then Z.max (k + n) 0 else Z.min k n in
  let lo := clamp i in
  let hi := clamp j in
  take (Z.to_nat (hi - lo)) (drop (Z.to_nat lo) l).

(** [str(n)] for an [int]. *)
Definition str_of_int (n : Z) : string := pretty n.

(** ** The parsed page, as the two scripts look at it

    Both scripts go through BeautifulSoup and only ever ask the
    questions below, so a page is kept as the answers to them. *)

(** An [<a>] element: its [href] attribute when it has one, and
    [get_text(strip=True)]. *)
Record anchor := Anchor { a_href : option string; a_text : string }.

(** A [<tr>]: its [<a>] descendants in document order. *)
Abbreviation row := (list anchor).

(** The [<ul class="pagination">]: the class list of its first
    [<a>] whose string is [Next], and of its first [<li class="next">]
    ([tag.get('class', [])], so an element without classes has the
    empty list). *)
Record pager := Pager {
  a_next : option (list string);
  li_next : option (list string)
}.

(** [soup]: [table_channels] is [soup.find('table', {'id': 'channels'})]
    with, inside [Some], [table.find('tbody')] and the rows
    [tbody.find_all('tr')]; [ul_pagination] is
    [soup.find('ul', class_='pagination')]. *)
Record soup := Soup {
  table_channels : option (option (list row));
  ul_pagination : option pager
}.

(** [row.find_all('a', href=True)] *)
Definition find_all_a_href (r : row) : list anchor :=
  filter (fun a => is_Some (a_href a)) r.

(** [row.find('a', href=True)] *)
Definition find_a_href (r : row) : option anchor :=
  head (find_all_a_href r).

(** [link.get('href', '')] *)
Definition get_href (a : anchor) : string := default "" (a_href a).

(** ** The world: network, clock and files *)

(** What the program did to the outside, in order.  The remote site:
    [Get url answer] is one [requests.get] with [raise_for_status] and
    the parse of [response.text]; the answer [None] stands for any
    [requests.RequestException] (no connection, the 30 seconds timeout,
    a non-success status). *)
Inductive event :=
| Get (url : string) (answer : option soup)
| Sleep (secs : Z).

(** The events so far and the files on disk. *)
Record world := World {
  log : list event;
  fs : gmap string string
}.

(** The URLs requested, in order. *)
Definition fetched (evs : list event) : list string :=
  omap (fun e => match e with Get u _ => Some u | Sleep _ => None end) evs.

(** The delays observed, in order. *)
Definition delays (evs : list event) : list Z :=
  omap (fun e => match e with Sleep s => Some s | Get _ _ => None end) evs.

(** The rows [tbody.find_all('tr')] of a page, none when the fetch
    failed or the table or its body is missing. *)
Definition rows_of_answer (answer : option soup) : list row :=
  match answer with
  | Some (Soup (Some (Some rows)) _) => rows
  | _ => []
  end.

(** The rows of all pages received, page by page. *)
Definition rows_received (evs : list event) : list row :=
  flat_map (fun e => match e with
                     | Get _ answer => rows_of_answer answer
                     | Sleep _ => []
                     end) evs.

(** The remote site: its answer to the [n]-th request of the run
    (counting from 0) when that request asks for [url]. *)
Definition internet := nat -> string -> option soup.

Definition empty_world : world := World [] ∅.

Section Extractors.

Variable inet : internet.

(** <<
    response = requests.get(url, headers=headers, timeout=30)
    response.raise_for_status()
    soup = BeautifulSoup(response.text, 'html.parser')
    >> *)
Definition http_get (url : string) (w : world) : option soup * world :=
  let answer := inet (length (fetched (log w))) url in
  (answer, World (log w ++ [Get url answer]) (fs w)).

(** [time.sleep(secs)] *)
Definition sleep (secs : Z) (w : world) : world :=
  World (log w ++ [Sleep secs]) (fs w).

(** Page 1 is the bare listing URL, page [n] appends [?page=n]. *)
Definition page_url (base_url : string) (page : Z) : string :=
  if page =? 1 then base_url
  else base_url +:+ "?page=" +:+ str_of_int page.

(** *** [app.py]: [scrape_usernames_range]

    The loops carry, next to the running list, the stream [seen] of
    every username value that passed the text and [href] tests and
    so reached the membership test, in execution order.  [seen] is a
    history variable: nothing reads it. *)

(** <<
    for link in links:
        username = link.get_text(strip=True)
        href = link.get('href', '')
        if username and href.startswith('/') and username not in all_usernames:
            all_usernames.append(username)
            break
    >> *)
Fixpoint scan_links (links : list anchor)
    (all_usernames seen : list string) : list string * list string :=
  match links with
  | [] => (all_usernames, seen)
  | link :: links' =>
      let username := a_text link in
      let href := get_href link in
      if truthy username && startswith href "/" then
        if negb (py_in username all_usernames)
        then (all_usernames ++ [username], seen ++ [username])
        else scan_links links' all_usernames (seen ++ [username])
      else scan_links links' all_usernames seen
  end.

(** The body of [for row in rows]. *)
Definition range_row (acc : list string * list string) (r : row)
    : list string * list string :=
  scan_links (find_all_a_href r) acc.1 acc.2.

(** The body of [for page_num in pages_needed]: each [continue]
    leaves the iteration before [time.sleep(1)] at its end. *)
Definition range_page (base_url : string)
    (st : list string * list string * world) (page_num : Z)
    : list string * list string * world :=
  let '(all_usernames, seen, w) := st in
  let url := page_url base_url page_num in
  let '(response, w) := http_get url w in
  match response with
  | None => (all_usernames, seen, w)
  | Some soup =>
      match table_channels soup with
      | None => (all_usernames, seen, w)
      | Some None => (all_usernames, seen, w)
      | Some (Some rows) =>
          let '(all_usernames, seen) :=
            foldl range_row (all_usernames, seen) rows in
          (all_usernames, seen, sleep 1 w)
      end
  end.

Definition range_base_url (language : option string) : string :=
  let base_url := "https://twitchtracker.com/channels/most-followers" in
  match language with
  | Some l => if truthy l then base_url +:+ "/" +:+ l else base_url
  | None => base_url
  end.

(** The loop over [pages_needed], from an empty running list. *)
Definition range_loop (language : option string) (pages_needed : list Z)
    (w : world) : list string * list string * world :=
  foldl (range_page (range_base_url language)) ([], [], w) pages_needed.

(** <<
    start_idx = start - 1
    end_idx = end
    if start_idx < len(all_usernames):
        usernames_in_range = all_usernames[start_idx:end_idx]
    else:
        usernames_in_range = []
    >> *)
Definition range_window (all_usernames : list string) (start end_ : Z)
    : list string :=
  let start_idx := start - 1 in
  let end_idx := end_ in
  if start_idx <? Z.of_nat (length all_usernames)
  then py_slice all_usernames start_idx end_idx
  else [].

Definition scrape_usernames_range (start end_ : Z)
    (language : option string) (w : world)
    : result (list string) * world :=
  match calculate_pages_needed start end_ with
  | Raise e => (Raise e, w)
  | Ok pages_needed =>
      let '(all_usernames, _, w) := range_loop language pages_needed w in
      (Ok (range_window all_usernames start end_), w)
  end.

(** *** [scraper.py]: [scrape_usernames] *)

Definition max_pages : Z := 100.

(** <<
    link = row.find('a', href=True)
    if link:
        username = link.get_text(strip=True)
        href = link.get('href', '')
        if username and href.startswith('/') and username not in usernames:
            page_usernames.append(username)
            usernames.append(username)
    >>
    The state is [usernames], [page_usernames] and the history
    variable [seen]. *)
Definition full_row (st : list string * list string * list string)
    (r : row) : list string * list string * list string :=
  let '(usernames, page_usernames, seen) := st in
  match find_a_href r with
  | None => st
  | Some link =>
      let username := a_text link in
      let href := get_href link in
      if truthy username && startswith href "/" then
        if negb (py_in username usernames)
        then (usernames ++ [username], page_usernames ++ [username],
              seen ++ [username])
        else (usernames, page_usernames, seen ++ [username])
      else st
  end.

(** [pagination.find('a', string='Next') or
    pagination.find('li', class_='next')]: a tag is always true, so
    [or] falls through only on [None]. *)
Definition next_button (pagination : pager) : option (list string) :=
  match a_next pagination with
  | Some classes => Some classes
  | None => li_next pagination
  end.

(** Whether the walk goes on after a page that gave new usernames:
    the negation of the two [break] tests on the pagination. *)
Definition goes_on (s : soup) (page_usernames : list string) : bool :=
  match ul_pagination s with
  | Some pagination =>
      match next_button pagination with
      | None => false
      | Some classes => negb (py_in "disabled" classes)
      end
  | None => negb (Z.of_nat (length page_usernames) <? 25)
  end.

(** The [while page <= max_pages] loop.  [fuel] bounds the number
    of iterations; [None] means the fuel ran out while the loop
    condition still held. *)
Fixpoint walk (fuel : nat) (base_url : string) (page : Z)
    (usernames seen : list string) (w : world)
    : option (list string * list string * world) :=
  if page <=? max_pages then
    match fuel with
    | O => None
    | S fuel =>
        let url := page_url base_url page in
        let '(response, w) := http_get url w in
        match response with
        | None => Some (usernames, seen, w)
        | Some soup =>
            match table_channels soup with
            | None => Some (usernames, seen, w)
            | Some None => Some (usernames, seen, w)
            | Some (Some []) => Some (usernames, seen, w)
            | Some (Some rows) =>
                let '(usernames, page_usernames, seen) :=
                  foldl full_row (usernames, [], seen) rows in
                match page_usernames with
                | [] => Some (usernames, seen, w)
                | _ =>
                    if goes_on soup page_usernames
                    then walk fuel base_url (page + 1) usernames seen
                           (sleep 1 w)
                    else Some (usernames, seen, w)
                end
            end
        end
    end
  else Some (usernames, seen, w).

End Extractors.

(** ** The CSV writer ([csv.writer] with the default [excel] dialect)

    The characters the writer looks for are ASCII, and no byte of a
    multi-byte UTF-8 sequence is one of them, so the writer does on
    the UTF-8 bytes what it does on the code points. *)

Module Csv.

Definition comma : ascii := ","%char.
Definition dquote : ascii := "034"%char.
Definition cr : ascii := "013"%char.
Definition lf : ascii := "010"%char.

(** The line terminator of the dialect. *)
Definition crlf : string := String cr (String lf EmptyString).

(** Characters that force a field into quotes under [QUOTE_MINIMAL]:
    the delimiter, the quote character and the characters of the line
    terminator. *)
Definition special (c : ascii) : bool :=
  Ascii.eqb c comma || Ascii.eqb c dquote || Ascii.eqb c cr || Ascii.eqb c lf.

Fixpoint has_special (s : string) : bool :=
  match s with
  | EmptyString => false
  | String c s' => special c || has_special s'
  end.

(** [doublequote=True]: a quote character inside a field is written
    twice. *)
Fixpoint double_quotes (s : string) : string :=
  match s with
  | EmptyString => EmptyString
  | String c s' =>
      if Ascii.eqb c dquote
      then String dquote (String dquote (double_quotes s'))
      else String c (double_quotes s')
  end.

Definition quoted (s : string) : string :=
  String dquote (double_quotes s +:+ String dquote EmptyString).

(** A field of a row; [alone] says that it is the only field, in
    which case an empty field is written as a pair of quotes. *)
Definition field (alone : bool) (s : string) : string :=
  if has_special s || (alone && String.eqb s EmptyString)
  then quoted s
  else s.

(** [writer.writerow(fields)]: the text appended to the output. *)
Definition writerow (fields : list string) : string :=
  String.concat "," (map (field (Nat.eqb (length fields) 1)) fields)
  +:+ crlf.

End Csv.

(** <<
    writer.writerow(['twitch_username'])
    for username in usernames:
        writer.writerow([username])
    >>
    the text written, shared by [download] and [scrape_usernames]. *)
Definition write_csv (usernames : list string) : string :=
  foldl (fun output username => output +:+ Csv.writerow [username])
        (Csv.writerow ["twitch_username"]) usernames.

(** [open(path, 'w', newline='', encoding='utf-8')], writing [text]
    and closing: the file is created or replaced.  The path is taken
    to be writable. *)
Definition write_file (path text : string) (w : world) : world :=
  World (log w) (<[path := text]> (fs w)).

(** [scraper.py]: [scrape_usernames(base_url, output_file)]; [None]
    only if the loop ran out of fuel. *)
Definition scrape_usernames (inet : internet) (base_url output_file : string)
    (w : world) : option (list string * world) :=
  match walk inet (Z.to_nat max_pages) base_url 1 [] [] w with
  | None => None
  | Some (usernames, _, w) =>
      Some (usernames, write_file output_file (write_csv usernames) w)
  end.

(** [scraper.py] run as a script:
    <<
    url = 'https://twitchtracker.com/channels/most-followers'
    output = 'twitch_usernames.csv'
    if len(sys.argv) > 1:
        output = sys.argv[1]
    scrape_usernames(url, output)
    >>
    [argv] is [sys.argv], the name of the script first. *)
Definition scraper_main (inet : internet) (argv : list string) (w : world)
    : option (list string * world) :=
  let url := "https://twitchtracker.com/channels/most-followers" in
  let output :=
     if (1 <? Z.of_nat (length argv))
     then default "twitch_usernames.csv" (argv !! 1%nat)
     else "twitch_usernames.csv" in
  scrape_usernames inet url output w.

(** ** [app.py]: the service handlers *)

(** What the handlers read of a request.  Flask, the JSON decoder,
    [int] and [str] are taken as given, as BeautifulSoup is: a request
    is kept as the outcomes of the three reads that both handlers
    begin with,
    <<
    start = int(request.json.get('start', 1))
    end = int(request.json.get('end', 50))
    language = request.json.get('language', '').strip() or None
    >>
    A read finds its key missing, or gets a value, or raises: because
    [request.json] raises (the body is not JSON, or holds an integer
    literal longer than the decoder takes), because the body is no
    object, because [int] refuses the value ([null], a list, a string
    that is no numeral), or because the value of [language] has no
    [strip] ([null], a number).  [message] is [str(e)] of the
    exception. *)
Inductive read (A : Type) :=
| Missing
| Got (a : A)
| Fails (message : string).
Arguments Missing {A}.
Arguments Got {A} a.
Arguments Fails {A} message.

(** A [str] of a JSON body.  It is a text, kept as its UTF-8 bytes as
    every other [str] is; or it holds a lone surrogate, which a JSON
    escape can spell, as in ["\ud800"].  A [str] of the second kind has
    no UTF-8 bytes; it is not empty and keeps its surrogate under
    [.strip()]; all that the handlers do with it, beyond formatting it
    into other strings, is to print it (l.57 of [app.py]), which
    raises [UnicodeEncodeError], of text [error]. *)
Inductive jstr :=
| Text (s : string)
| Surrogate (error : string).

Record request_json := RequestJson {
  rq_start : read Z;
  rq_end : read Z;
  rq_language : read jstr
}.

Inductive body :=
| JsonSuccess (success : bool) (count : Z) (usernames : list string)
| JsonError (error : string)
| Attachment (mimetype download_name content : string).

Record response := Response { status : Z; payload : body }.

(** [str(e)] *)
Definition str_of_exn (e : exn) : string :=
  match e with
  | OverflowError => "integer division result too large for a float"
  | ZeroDivisionError => "division by zero"
  end.

Definition invalid_range_message : string :=
  "Invalid range. Start must be >= 1 and end must be >= start.".

(** What evaluating a piece of a handler gives under its [try]: a
    value, or an exception, kept as the text [str(e)] that the
    [except Exception] clause answers with. *)
Inductive attempt (A : Type) :=
| Done (a : A)
| Failed (message : string).
Arguments Done {A} a.
Arguments Failed {A} message.

#[global] Instance attempt_bind : MBind attempt := fun A B f x =>
  match x with
  | Done a => f a
  | Failed message => Failed message
  end.

(** [int(request.json.get(key, default))] *)
Definition int_get (r : read Z) (default : Z) : attempt Z :=
  match r with
  | Missing => Done default
  | Got n => Done n
  | Fails message => Failed message
  end.

(** The language as text, when it is one. *)
Definition text_of (language : jstr) : option string :=
  match language with
  | Text l => Some l
  | Surrogate _ => None
  end.

Section Service.

Variable inet : internet.

(** [str.strip], left uninterpreted. *)
Variable py_strip : string -> string.

(** [request.json.get('language', '').strip() or None] *)
Definition get_language (rq : request_json) : attempt (option jstr) :=
  let stripped (s : string) :=
    let l := py_strip s in
    if truthy l then Some (Text l) else None in
  match rq_language rq with
  | Missing => Done (stripped "")
  | Got (Text s) => Done (stripped s)
  | Got (Surrogate error) => Done (Some (Surrogate error))
  | Fails message => Failed message
  end.

(** The three reads, in the order of the source; the first exception
    ends them. *)
Definition read_request (rq : request_json)
    : attempt (Z * Z * option jstr) :=
  start ← int_get (rq_start rq) 1;
  end_ ← int_get (rq_end rq) 50;
  language ← get_language rq;
  Done (start, end_, language).

(** The call [scrape_usernames_range(start, end, language)] of the
    handlers, whose language is any [str] of a JSON body.  On a text it
    is [scrape_usernames_range] above.  A [str] with a lone surrogate
    stops the function at its first [print] (l.57), after
    [calculate_pages_needed] (l.54) and before the first request. *)
Definition call_scrape_usernames_range (start end_ : Z)
    (language : option jstr) (w : world) : attempt (list string) * world :=
  match language with
  | Some (Surrogate error) =>
      match calculate_pages_needed start end_ with
      | Raise e => (Failed (str_of_exn e), w)
      | Ok _ => (Failed error, w)
      end
  | _ =>
      match scrape_usernames_range inet start end_
              (language ≫= text_of) w with
      | (Raise e, w) => (Failed (str_of_exn e), w)
      | (Ok usernames, w) => (Done usernames, w)
      end
  end.

(** The [/scrape] handler: everything runs under [try], and
    [except Exception as e] answers [str(e)] with status 500. *)
Definition scrape (rq : request_json) (w : world) : response * world :=
  match read_request rq with
  | Failed message => (Response 500 (JsonError message), w)
  | Done (start, end_, language) =>
      if (start <? 1) || (end_ <? start) then
        (Response 400 (JsonError invalid_range_message), w)
      else
        match call_scrape_usernames_range start end_ language w with
        | (Failed message, w) => (Response 500 (JsonError message), w)
        | (Done usernames, w) =>
            (Response 200
               (JsonSuccess true (Z.of_nat (length usernames)) usernames), w)
        end
  end.

(** [f'twitch_usernames_{start}_{end}{lang_suffix}.csv'] *)
Definition download_name_of (start end_ : Z) (language : option string)
    : string :=
  let lang_suffix :=
    match language with
    | Some l => if truthy l then "_" +:+ l else ""
    | None => ""
    end in
  "twitch_usernames_" +:+ str_of_int start +:+ "_" +:+ str_of_int end_
  +:+ lang_suffix +:+ ".csv".

(** The [/download] handler.  The file name is built only after the
    call has returned, so from a language that is a text. *)
Definition download (rq : request_json) (w : world) : response * world :=
  match read_request rq with
  | Failed message => (Response 500 (JsonError message), w)
  | Done (start, end_, language) =>
      if (start <? 1) || (end_ <? start) then
        (Response 400 (JsonError invalid_range_message), w)
      else
        match call_scrape_usernames_range start end_ language w with
        | (Failed message, w) => (Response 500 (JsonError message), w)
        | (Done usernames, w) =>
            let csv_bytes := write_csv usernames in
            (Response 200
               (Attachment "text/csv"
                  (download_name_of start end_ (language ≫= text_of))
                  csv_bytes), w)
        end
  end.

End Service.

(** ** Notions the statements are phrased with *)

(** Appending a name only if it is not already present. *)
Definition add_new (acc : list string) (x : string) : list string :=
  if py_in x acc then acc else acc ++ [x].

(** A stream of names with every repetition dropped: the first
    occurrence wins and keeps its place. *)
Definition first_seen (l : list string) : list string := foldl add_new [] l.

(** Whether a page came back with the results table and its body. *)
Definition parsed (answer : option soup) : bool :=
  match answer with
  | Some (Soup (Some (Some _)) _) => true
  | _ => false
  end.

(** The answers to the requests made, in order. *)
Definition answers (evs : list event) : list (option soup) :=
  omap (fun e => match e with Get _ a => Some a | Sleep _ => None end) evs.

(** The events of one iteration of the range loop. *)
Definition range_page_events (url : string) (answer : option soup)
    : list event :=
  Get url answer :: (if parsed answer then [Sleep 1] else []).

(** The name the full extractor takes from a row, if any, before the
    membership test. *)
Definition full_row_names (r : row) : list string :=
  match find_a_href r with
  | Some link =>
      if truthy (a_text link) && startswith (get_href link) "/"
      then [a_text link] else []
  | None => []
  end.

(** A hyperlink qualifies when its visible text is non-empty and its
    target begins with the path separator. *)
Definition qualifies (a : anchor) : bool :=
  truthy (a_text a) && startswith (get_href a) "/".

(** The row rule as the specification words it: the visible text of the
    first hyperlink, in document order, that qualifies. *)
Definition spec_row_username (r : row) : option string :=
  a_text <$> head (filter (fun a => qualifies a = true) (find_all_a_href r)).

(** A row that shows the channel [name]: exactly one of its
    hyperlinks qualifies, and its text is [name]. *)
Definition shows (r : row) (name : string) : Prop :=
  a_text <$> filter (fun a => qualifies a = true) (find_all_a_href r) = [name].

(** The items that a source holding [items] puts on page [p], 50 per
    page. *)
Definition page_items (items : list string) (p : nat) : list string :=
  take 50 (drop (50 * (p - 1)) items).

(** A data source that presents the distinct [items] 50 per page in a
    stable order under [base_url]: whenever page [p] is asked for, its
    rows show the items of that page, one per row (so a page past the
    last item has no rows, or no table, or fails). *)
Definition presents (inet : internet) (base_url : string)
    (items : list string) : Prop :=
  NoDup items /\
  forall (n p : nat), (1 <= p)%nat ->
    Forall2 shows (rows_of_answer (inet n (page_url base_url (Z.of_nat p))))
            (page_items items p).

(** The items at the 1-indexed positions [start] to [end_] inclusive,
    clipped to the items there are. *)
Definition items_between (items : list string) (start end_ : Z)
    : list string :=
  take (Z.to_nat (end_ - start + 1)) (drop (Z.to_nat (start - 1)) items).

(** The lines of the CSV as the specification words them: the header
    line, then one line per username, the username itself. *)
Definition spec_csv (usernames : list string) : string :=
  String.concat "" (map (fun line => line +:+ Csv.crlf)
                        ("twitch_username" :: usernames)).

(** Whether a float of this file and a binary64 number of the Standard
    Library are the same number. *)
Definition same_number (x : float) (y : spec_float) : bool :=
  match y with
  | S754_zero _ => mant x =? 0
  | S754_finite sign m e =>
      let k := Z.min (expo x) e in
      mant x * 2 ^ (expo x - k)
      =? (if sign then Z.neg m else Z.pos m) * 2 ^ (e - k)
  | _ => false
  end.

(** [a / 50] of this file against [SFdiv] on the same integers. *)
Definition agrees_with_binary64 (a : positive) : bool :=
  match truediv (Z.pos a) 50 with
  | Ok x =>
      same_number x (SFdiv 53 1024 (S754_finite false a 0)
                           (S754_finite false 50 0))
  | Raise _ => false
  end.

(** *** Notions of the further properties *)

(** Requests spaced by delays of 1: a request, then a delay and a
    request any number of times, and possibly a last delay. *)
Fixpoint spaced (evs : list event) : bool :=
  match evs with
  | [] => true
  | Get _ _ :: rest =>
      match rest with
      | [] => true
      | Sleep s :: rest' => (s =? 1) && spaced rest'
      | Get _ _ :: _ => false
      end
  | Sleep _ :: _ => false
  end.

(** Whether the first hyperlink with a target of a row qualifies. *)
Definition first_link_qualifies (r : row) : bool :=
  match find_a_href r with
  | Some link => qualifies link
  | None => false
  end.

(** Whether a page offers a next page: it has no pagination control,
    or its control has a [Next] link, or else a [next] item, whose
    classes do not include [disabled]. *)
Definition offers_next (s : soup) : bool :=
  match ul_pagination s with
  | None => true
  | Some pagination =>
      match a_next pagination, li_next pagination with
      | Some classes, _ | None, Some classes =>
          negb (py_in "disabled" classes)
      | None, None => false
      end
  end.

(** A reader for the text of the CSV writer above, one field per row:
    a row that begins with a double quote runs to the closing double
    quote, a doubled double quote standing for one; any other row runs
    to its CR LF. *)
Inductive reading :=
| AtStart
| InPlain
| InQuoted
| AfterQuote
| AfterCr.

(** To put a character in front of the field being read. *)
Definition put (c : ascii) (rows : option (list string))
    : option (list string) :=
  match rows with
  | Some (field :: rows) => Some (String c field :: rows)
  | _ => None
  end.

(** The rows of [s] from the state [st]; the first one is what is left
    of the row being read. *)
Fixpoint read_rows (st : reading) (s : string) : option (list string) :=
  match s with
  | EmptyString =>
      match st with
      | AtStart => Some []
      | _ => None
      end
  | String c s' =>
      match st with
      | AtStart =>
          if Ascii.eqb c Csv.dquote then read_rows InQuoted s'
          else if Ascii.eqb c Csv.cr then read_rows AfterCr s'
          else put c (read_rows InPlain s')
      | InPlain =>
          if Ascii.eqb c Csv.cr then read_rows AfterCr s'
          else put c (read_rows InPlain s')
      | InQuoted =>
          if Ascii.eqb c Csv.dquote then read_rows AfterQuote s'
          else put c (read_rows InQuoted s')
      | AfterQuote =>
          if Ascii.eqb c Csv.dquote then put c (read_rows InQuoted s')
          else if Ascii.eqb c Csv.cr then read_rows AfterCr s'
          else None
      | AfterCr =>
          if Ascii.eqb c Csv.lf then cons EmptyString <$> read_rows AtStart s'
          else None
      end
  end.

(** The usernames of a CSV text: its rows after the header row. *)
Definition read_csv (text : string) : option (list string) :=
  match read_rows AtStart text with
  | Some (header :: usernames) =>
      if String.eqb header "twitch_username" then Some usernames else None
  | _ => None
  end.

(** The first integer whose quotient by 50 rounds to [2 ^ 1024]: half
    a unit in the last place below it. *)
Definition overflow_from : Z := 50 * (2 ^ 1024 - 2 ^ 970).

(** A decimal digit, and a string of decimal digits. *)
Definition is_digit (c : ascii) : bool :=
  (48 <=? nat_of_ascii c)%nat && (nat_of_ascii c <=? 57)%nat.

Fixpoint digits (s : string) : bool :=
  match s with
  | EmptyString => true
  | String c s' => is_digit c && digits s'
  end.

(** A string that begins with a character that is no digit. *)
Definition after_digits (s : string) : bool :=
  match s with
  | EmptyString => false
  | String c _ => negb (is_digit c)
  end.

(** The texts of the qualifying hyperlinks of a row, in document
    order. *)
Definition link_names (r : row) : list string :=
  a_text <$> filter (fun a => qualifies a = true) (find_all_a_href r).

(** What a row gives the running list [all] of the range extractor:
    the first of these texts that the list does not hold yet. *)
Definition row_adds (all : list string) (r : row) : option string :=
  head (filter (fun u => u ∉ all) (link_names r)).

(** The running list after a row, and after the rows of a run. *)
Definition takes_from_row (all : list string) (r : row) : list string :=
  all ++ option_list (row_adds all r).

Definition first_new_names (rows : list row) : list string :=
  foldl takes_from_row [] rows.

(** The trace of a loop that waits one second after each page that
    came back with the results table and its body, and after no other:
    every request is followed at once by a delay of 1 when its answer
    is such a page, and by no delay otherwise; there is no other
    delay. *)
Fixpoint delay_follows_parsed (evs : list event) : bool :=
  match evs with
  | [] => true
  | Sleep _ :: _ => false
  | Get _ answer :: rest =>
      if parsed answer then
        match rest with
        | Sleep secs :: rest' => (secs =? 1) && delay_follows_parsed rest'
        | _ => false
        end
      else
        match rest with
        | Sleep _ :: _ => false
        | _ => delay_follows_parsed rest
        end
  end.

(** A username as the amended specification has it written: as it is
    when it holds no comma, double quote, carriage return or line
    feed; otherwise between double quotes, each double quote inside
    written twice. *)
Definition spec_needs_quotes (u : string) : bool :=
  existsb (fun c => bool_decide (c ∈ [Csv.comma; Csv.dquote; Csv.cr; Csv.lf]))
          (list_ascii_of_string u).

Definition spec_doubled (u : string) : string :=
  string_of_list_ascii
    (flat_map (fun c => if Ascii.eqb c Csv.dquote then [c; c] else [c])
              (list_ascii_of_string u)).

Definition spec_written (u : string) : string :=
  if spec_needs_quotes u
  then String Csv.dquote (spec_doubled u) +:+ String Csv.dquote EmptyString
  else u.

(** The lines of the CSV as the amended specification words them. *)
Definition spec_csv_quoted (usernames : list string) : string :=
  String.concat "" (map (fun line => line +:+ Csv.crlf)
                        ("twitch_username" :: map spec_written usernames)).

(** ** Sample sites *)

Module Sample.

(** A row of the listing as [app.py] describes it: a link around the
    channel's image, with no text, then the link with the name. *)
Definition channel_row (name : string) : row :=
  [Anchor (Some ("/" +:+ name)) ""; Anchor (Some ("/" +:+ name)) name].

(** A row whose only link is the one with the name. *)
Definition plain_row (name : string) : row :=
  [Anchor (Some ("/" +:+ name)) name].

(** The names [u<from>], ..., [u<from + n - 1>]. *)
Definition names (from n : nat) : list string :=
  map (fun i => "u" +:+ pretty (Z.of_nat i)) (seq from n).

Definition base : string := range_base_url None.

(** A site that lists [items] 50 per page in a stable order, as rows
    built by [mk_row]; any other URL fails. *)
Definition listing_site (mk_row : string -> row) (items : list string)
    : internet :=
  fun _ url =>
    match list_find (fun p => page_url base (Z.of_nat p) = url)
                    (seq 1 (length items)) with
    | Some (_, p) =>
        Some (Soup (Some (Some (map mk_row (page_items items p)))) None)
    | None => None
    end.

(** A site that never answers. *)
Definition offline : internet := fun _ _ => None.

(** A site whose first page fails, whose second has no results table,
    whose third has a table without body, and whose later pages are
    fine. *)
Definition flaky_site : internet :=
  fun n _ =>
    match n with
    | 0%nat => None
    | 1%nat => Some (Soup None None)
    | 2%nat => Some (Soup (Some None) None)
    | _ => Some (Soup (Some (Some (map channel_row (names (50 * n) 50)))) None)
    end.

(** A site that answers every request with 25 names never shown
    before and a [Next] link that is never disabled. *)
Definition endless_site : internet :=
  fun n _ =>
    Some (Soup (Some (Some (map plain_row (names (25 * n) 25))))
               (Some (Pager (Some []) None))).

(** A site that answers every request with the same 25 names and a
    [Next] link that is never disabled. *)
Definition repeating_site : internet :=
  fun _ _ =>
    Some (Soup (Some (Some (map plain_row (names 1 25))))
               (Some (Pager (Some []) None))).

(** The first position past [50 * 2 ^ 48]. *)
Definition far_position : Z := 50 * 2 ^ 48 + 1.

End Sample.

(** * Proofs *)

(** ** The arithmetic of [calculate_pages_needed] *)

Lemma round_half_even_near (n d : Z) :
  0 < d -> - d <= 2 * (round_half_even n d * d - n) <= d.
Proof.
  intros Hd. unfold round_half_even.
  pose proof (Z.div_mod n d ltac:(lia)) as Hn.
  pose proof (Z.mod_pos_bound n d Hd) as Hr.
  repeat case_match; rewrite ?Z.ltb_lt, ?Z.ltb_ge in *; nia.
Qed.

Lemma ceil_div_spec (n d : Z) :
  0 < d -> d * (ceil_div n d - 1) < n <= d * ceil_div n d.
Proof.
  intros Hd. unfold ceil_div.
  pose proof (Z.div_mod (- n) d ltac:(lia)) as Hn.
  pose proof (Z.mod_pos_bound (- n) d Hd) as Hr. nia.
Qed.

Lemma ceil_div_unique (n d c : Z) :
  0 < d -> d * (c - 1) < n <= d * c -> ceil_div n d = c.
Proof.
  intros Hd Hc. pose proof (ceil_div_spec n d Hd). nia.
Qed.

Lemma ceil_of_rounded (n P m : Z) :
  32 <= P -> - 50 <= 2 * (m * 50 - n * P) <= 50 ->
  ceil_div m P = ceil_div n 50.
Proof.
  intros HP Hm. apply ceil_div_unique; [lia|].
  pose proof (ceil_div_spec n 50 ltac:(lia)). nia.
Qed.

Lemma quot_log2_50_bounds (n : Z) :
  1 <= n < 50 * 2 ^ 48 -> - 6 <= quot_log2 n 50 <= 47.
Proof.
  intros Hn. unfold quot_log2.
  change (2 ^ 48) with 281474976710656 in Hn.
  change (Z.log2 50) with 5.
  assert (0 <= Z.log2 n) by apply Z.log2_nonneg.
  assert (Z.log2 n < 54).
  { apply Z.log2_lt_pow2; [lia|]. change (2 ^ 54) with 18014398509481984. lia. }
  case_match; rewrite ?Z.leb_le, ?Z.leb_gt in *.
  2: lia.
  destruct (decide (Z.log2 n = 53)) as [E|]; [|lia].
  rewrite E in *. exfalso. revert H1. unfold scaled_den, scaled_num.
  change (50 * 281474976710656 <= n * 1 -> False). lia.
Qed.

Lemma truediv_50_ceil (n : Z) :
  1 <= n <= 50 * 2 ^ 48 ->
  exists x, truediv n 50 = Ok x /\ ceil x = ceil_div n 50.
Proof.
  intros Hn.
  destruct (decide (n = 50 * 2 ^ 48)) as [->|Hne].
  { eexists; split; [vm_compute; reflexivity|]. vm_compute. reflexivity. }
  assert (Hq := quot_log2_50_bounds n ltac:(lia)).
  change (2 ^ 48) with 281474976710656 in Hn, Hne.
  unfold truediv. change (50 =? 0) with false. cbv iota.
  destruct (Z.eqb_spec n 0) as [|_]; [lia|].
  rewrite (Z.abs_eq n) by lia. change (Z.abs 50) with 50.
  unfold truediv_pos.
  set (e := Z.max (quot_log2 n 50 - 52) (- 1074)).
  assert (He : - 58 <= e <= - 5) by lia.
  set (m := round_half_even (scaled_num n e) (scaled_den 50 e)).
  assert (Hden : scaled_den 50 e = 50).
  { unfold scaled_den. rewrite Z.max_l by lia. reflexivity. }
  assert (Hnum : scaled_num n e = n * 2 ^ (- e)).
  { unfold scaled_num. rewrite Z.max_r by lia. reflexivity. }
  pose proof (round_half_even_near (scaled_num n e) (scaled_den 50 e)) as Hm.
  fold m in Hm. rewrite Hden, Hnum in Hm. specialize (Hm ltac:(lia)).
  assert (HP : 32 <= 2 ^ (- e) <= 2 ^ 58).
  { split; [change 32 with (2 ^ 5)|]; apply Z.pow_le_mono_r; lia. }
  rewrite (Z.max_l 0 e) by lia. rewrite Z.pow_0_r, Z.mul_1_r.
  destruct (Z.leb_spec (2 ^ 1024) m) as [Hbig|_].
  { exfalso. assert (2 ^ 1024 > 2 ^ 54 * 2 ^ 58) by (vm_compute; reflexivity).
    assert (n < 2 ^ 54) by (change (2 ^ 54) with 18014398509481984; lia). nia. }
  eexists; split; [reflexivity|].
  unfold ceil. cbn [mant expo].
  replace (Z.sgn n) with 1 by lia. change (Z.sgn 50) with 1.
  rewrite !Z.mul_1_l.
  destruct (Z.leb_spec 0 e); [lia|].
  apply (ceil_of_rounded n (2 ^ (- e)) m); lia.
Qed.

Lemma ceil_div_50_pos (n : Z) : 1 <= n -> 1 <= ceil_div n 50.
Proof. intros H. pose proof (ceil_div_spec n 50 ltac:(lia)). lia. Qed.

Lemma ceil_div_50_mono (n m : Z) : n <= m -> ceil_div n 50 <= ceil_div m 50.
Proof.
  intros H. pose proof (ceil_div_spec n 50 ltac:(lia)).
  pose proof (ceil_div_spec m 50 ltac:(lia)). lia.
Qed.

Lemma elem_of_range (a b p : Z) : p ∈ range a b <-> a <= p < b.
Proof.
  unfold range. rewrite list_elem_of_fmap. split.
  - intros (i & -> & Hi). apply elem_of_seq in Hi. lia.
  - intros Hp. exists (Z.to_nat (p - a)). split; [lia|].
    apply elem_of_seq. lia.
Qed.

Lemma range_lookup (a b : Z) (i : nat) :
  (i < Z.to_nat (b - a))%nat -> range a b !! i = Some (a + Z.of_nat i).
Proof.
  intros Hi. unfold range. rewrite list_lookup_fmap, lookup_seq_lt by done.
  done.
Qed.

Lemma calculate_pages_needed_eq (start end_ : Z) :
  1 <= start <= 50 * 2 ^ 48 -> 1 <= end_ <= 50 * 2 ^ 48 ->
  calculate_pages_needed start end_ =
    Ok (range (ceil_div start 50) (ceil_div end_ 50 + 1)).
Proof.
  intros Hs He. unfold calculate_pages_needed.
  destruct (truediv_50_ceil start Hs) as (qs & -> & ->).
  destruct (truediv_50_ceil end_ He) as (qe & -> & ->).
  reflexivity.
Qed.

(** The division of this file against the binary64 division of the
    Standard Library, on small operands, on operands around
    [50 * 2 ^ 48] and on ties. *)
Example truediv_agrees_with_binary64 :
  forallb agrees_with_binary64
    [1; 2; 7; 25; 49; 50; 51; 99; 100; 150; 12345; 9007199254740993;
     14073748835532799; 14073748835532800; 14073748835532801;
     14073748835532825; 14073748835532875; 1152921504606859321]%positive
  = true.
Proof. vm_compute. reflexivity. Qed.

(** ** Strings, slices and the CSV writer *)

Lemma string_app_nil_r (s : string) : s +:+ "" = s.
Proof.
  induction s as [|c s IH]; [done|].
  change (String c s +:+ "") with (String c (s +:+ "")). by rewrite IH.
Qed.

Lemma string_app_assoc (s t u : string) : (s +:+ t) +:+ u = s +:+ t +:+ u.
Proof.
  induction s as [|c s IH]; [done|].
  change (String c ((s +:+ t) +:+ u) = String c (s +:+ t +:+ u)).
  by rewrite IH.
Qed.

Lemma page_url_inj (base_url : string) (p q : Z) :
  page_url base_url p = page_url base_url q -> p = q.
Proof.
  unfold page_url, str_of_int.
  destruct (Z.eqb_spec p 1) as [->|Hp], (Z.eqb_spec q 1) as [->|Hq];
    intros H; [done| | |].
  - rewrite <- (string_app_nil_r base_url) in H at 1.
    apply (inj (String.append base_url)) in H. discriminate H.
  - rewrite <- (string_app_nil_r base_url) in H at 2.
    apply (inj (String.append base_url)) in H. discriminate H.
  - apply (inj (String.append base_url)) in H.
    apply (inj (String.append "?page=")) in H.
    by apply (inj pretty) in H.
Qed.

Lemma py_slice_sublist {A} (l : list A) (i j : Z) :
  py_slice l i j `sublist_of` l.
Proof.
  unfold py_slice. etrans; [apply sublist_take|apply sublist_drop].
Qed.

Lemma range_window_sublist (all_usernames : list string) (start end_ : Z) :
  range_window all_usernames start end_ `sublist_of` all_usernames.
Proof.
  unfold range_window. case_match; [apply py_slice_sublist|apply sublist_nil_l].
Qed.

Lemma range_window_in_bounds (l : list string) (start end_ : Z) :
  1 <= start -> start <= end_ ->
  range_window l start end_ = items_between l start end_.
Proof.
  intros Hs He. unfold range_window, items_between, py_slice.
  destruct (Z.ltb_spec (start - 1) (Z.of_nat (length l))) as [Hlt|Hge].
  - destruct (Z.ltb_spec (start - 1) 0); [lia|].
    destruct (Z.ltb_spec end_ 0); [lia|].
    rewrite (Z.min_l (start - 1)) by lia.
    destruct (Z.le_ge_cases end_ (Z.of_nat (length l))).
    + rewrite Z.min_l by lia. f_equal. lia.
    + rewrite Z.min_r by lia. rewrite !take_ge; [done| |];
        rewrite length_drop; lia.
  - rewrite drop_ge by lia. by rewrite take_nil.
Qed.

Lemma items_between_first_pages (items : list string) (start end_ : Z)
    (m : nat) :
  1 <= start -> start <= end_ -> end_ <= Z.of_nat m ->
  items_between (take m items) start end_ = items_between items start end_.
Proof.
  intros H1 H2 H3. unfold items_between.
  replace m with (Z.to_nat (start - 1) + (m - Z.to_nat (start - 1)))%nat
    at 1 by lia.
  rewrite <- take_drop_commute, take_take. f_equal. lia.
Qed.

Lemma write_csv_rows (usernames : list string) :
  write_csv usernames =
    Csv.writerow ["twitch_username"]
    +:+ String.concat "" (map (fun u => Csv.writerow [u]) usernames).
Proof.
  unfold write_csv. generalize (Csv.writerow ["twitch_username"]).
  induction usernames as [|u us IH]; intros header; cbn [foldl map].
  - cbn [String.concat]. by rewrite string_app_nil_r.
  - rewrite IH. cbn [String.concat].
    destruct (map _ us) eqn:E.
    + cbn [String.concat]. by rewrite !string_app_nil_r.
    + change ("" +:+ ?x) with x. by rewrite !string_app_assoc.
Qed.

Lemma writerow_plain (u : string) :
  truthy u = true -> Csv.has_special u = false ->
  Csv.writerow [u] = u +:+ Csv.crlf.
Proof.
  intros Hu Hs. unfold Csv.writerow, Csv.field. cbn [map length Nat.eqb].
  rewrite Hs. unfold truthy in Hu. apply negb_true_iff in Hu. rewrite Hu.
  done.
Qed.

(** ** Names seen once, and the range loop *)

Section RangeLoop.

Variable inet : internet.

Lemma py_in_decide (x : string) (l : list string) :
  py_in x l = bool_decide (x ∈ l).
Proof.
  unfold py_in. induction l as [|y l IH]; [done|].
  cbn [existsb]. rewrite IH. destruct (String.eqb_spec x y) as [->|Hne].
  - symmetry. apply bool_decide_eq_true_2. left.
  - cbn [orb]. apply bool_decide_ext. rewrite elem_of_cons. tauto.
Qed.

Lemma add_new_NoDup acc x : NoDup acc -> NoDup (add_new acc x).
Proof.
  intros H. unfold add_new. rewrite py_in_decide. case_bool_decide; [done|].
  apply NoDup_app. split_and!; [done| |apply NoDup_singleton].
  intros y Hy ->%list_elem_of_singleton. done.
Qed.

Lemma foldl_add_new_NoDup l acc : NoDup acc -> NoDup (foldl add_new acc l).
Proof.
  revert acc. induction l as [|x l IH]; intros acc H; simpl; [done|].
  apply IH, add_new_NoDup, H.
Qed.

Lemma first_seen_NoDup l : NoDup (first_seen l).
Proof. apply foldl_add_new_NoDup, NoDup_nil_2. Qed.

Lemma add_new_prefix acc x : acc `prefix_of` add_new acc x.
Proof.
  unfold add_new. case_match; [done|]. by apply prefix_app_r.
Qed.

Lemma foldl_add_new_prefix l acc : acc `prefix_of` foldl add_new acc l.
Proof.
  revert acc. induction l as [|x l IH]; intros acc; simpl; [done|].
  etrans; [apply add_new_prefix|apply IH].
Qed.

Lemma elem_of_add_new acc x y : y ∈ add_new acc x <-> y ∈ acc \/ y = x.
Proof.
  unfold add_new. rewrite py_in_decide. case_bool_decide.
  - split; [tauto|]. intros [?| ->]; done.
  - rewrite elem_of_app, list_elem_of_singleton. done.
Qed.

Lemma elem_of_foldl_add_new l acc y :
  y ∈ foldl add_new acc l <-> y ∈ acc \/ y ∈ l.
Proof.
  revert acc. induction l as [|x l IH]; intros acc; simpl.
  - rewrite elem_of_nil. tauto.
  - rewrite IH, elem_of_add_new, elem_of_cons. tauto.
Qed.

Lemma elem_of_first_seen l y : y ∈ first_seen l <-> y ∈ l.
Proof.
  unfold first_seen. rewrite elem_of_foldl_add_new, elem_of_nil. tauto.
Qed.

Lemma first_seen_app l k :
  first_seen (l ++ k) = foldl add_new (first_seen l) k.
Proof. unfold first_seen. apply foldl_app. Qed.

(** A name stands where it was first seen: right after the distinct
    names of the stream before its first occurrence. *)
Lemma first_seen_position l1 x l2 :
  x ∉ l1 ->
  exists rest, first_seen (l1 ++ x :: l2) = first_seen l1 ++ x :: rest.
Proof.
  intros Hx. rewrite first_seen_app. simpl.
  assert (add_new (first_seen l1) x = first_seen l1 ++ [x]) as ->.
  { unfold add_new. rewrite py_in_decide, bool_decide_eq_false_2; [done|].
    by rewrite elem_of_first_seen. }
  destruct (foldl_add_new_prefix l2 (first_seen l1 ++ [x])) as [rest ->].
  exists rest. by rewrite <- app_assoc.
Qed.

Lemma foldl_add_new_fresh names all :
  NoDup (all ++ names) -> foldl add_new all names = all ++ names.
Proof.
  revert all. induction names as [|x names IH]; intros all H; cbn [foldl].
  - by rewrite app_nil_r.
  - assert (add_new all x = all ++ [x]) as ->.
    { unfold add_new. rewrite py_in_decide, bool_decide_eq_false_2; [done|].
      apply NoDup_app in H as (_ & H & _). intros Hx. apply (H x Hx). left. }
    rewrite IH; rewrite <- app_assoc; done.
Qed.

(** Row level, range extractor. *)
Lemma scan_links_extends links all seen :
  exists extra,
    scan_links links all seen = (foldl add_new all extra, seen ++ extra).
Proof.
  revert seen. induction links as [|link links IH]; intros seen; simpl.
  - exists []. by rewrite app_nil_r.
  - destruct (truthy (a_text link) && startswith (get_href link) "/"); [|apply IH].
    destruct (py_in (a_text link) all) eqn:Hin; simpl.
    + destruct (IH (seen ++ [a_text link])) as [extra ->].
      exists (a_text link :: extra). simpl.
      replace (add_new all (a_text link)) with all
        by (unfold add_new; by rewrite Hin).
      by rewrite <- app_assoc.
    + exists [a_text link]. simpl. unfold add_new. by rewrite Hin.
Qed.

Lemma range_rows_extends rows all seen :
  exists extra,
    foldl range_row (all, seen) rows = (foldl add_new all extra, seen ++ extra).
Proof.
  revert all seen. induction rows as [|r rows IH]; intros all seen; simpl.
  - exists []. by rewrite app_nil_r.
  - unfold range_row at 2. simpl.
    destruct (scan_links_extends (find_all_a_href r) all seen) as [e1 ->].
    destruct (IH (foldl add_new all e1) (seen ++ e1)) as [e2 ->].
    exists (e1 ++ e2). by rewrite foldl_app, app_assoc.
Qed.

(** One iteration of the range loop, as an equation. *)
Lemma range_page_eq base all seen w page_num :
  range_page inet base (all, seen, w) page_num =
    let url := page_url base page_num in
    let answer := inet (length (fetched (log w))) url in
    let acc := foldl range_row (all, seen) (rows_of_answer answer) in
    (acc.1, acc.2, World (log w ++ range_page_events url answer) (fs w)).
Proof.
  unfold range_page, http_get, range_page_events, sleep. simpl.
  destruct (inet _ _) as [[[[rows|]|] pg]|]; simpl; try done.
  destruct (foldl range_row (all, seen) rows) as [a s]. simpl.
  by rewrite <- app_assoc.
Qed.

Lemma fetched_app l k : fetched (l ++ k) = fetched l ++ fetched k.
Proof. apply omap_app. Qed.
Lemma delays_app l k : delays (l ++ k) = delays l ++ delays k.
Proof. apply omap_app. Qed.
Lemma answers_app l k : answers (l ++ k) = answers l ++ answers k.
Proof. apply omap_app. Qed.
Lemma rows_received_app l k :
  rows_received (l ++ k) = rows_received l ++ rows_received k.
Proof. apply flat_map_app. Qed.

Lemma range_page_events_facts url answer :
  fetched (range_page_events url answer) = [url] /\
  answers (range_page_events url answer) = [answer] /\
  rows_received (range_page_events url answer) = rows_of_answer answer /\
  delays (range_page_events url answer) = if parsed answer then [1] else [].
Proof.
  unfold range_page_events. destruct (parsed answer); simpl;
    rewrite ?app_nil_r; done.
Qed.

(** The whole loop. *)
Lemma range_pages_run base pages all seen w :
  exists evs,
    foldl (range_page inet base) (all, seen, w) pages =
      ((foldl range_row (all, seen) (rows_received evs)).1,
       (foldl range_row (all, seen) (rows_received evs)).2,
       World (log w ++ evs) (fs w)) /\
    fetched evs = map (page_url base) pages /\
    delays evs = replicate (length (filter (fun a => parsed a = true) (answers evs))) 1.
Proof.
  revert all seen w. induction pages as [|p pages IH]; intros all seen w.
  - exists []. destruct w. simpl. by rewrite app_nil_r.
  - cbn [foldl map]. rewrite range_page_eq. cbv zeta.
    set (url := page_url base p).
    set (answer := inet (length (fetched (log w))) url).
    destruct (range_page_events_facts url answer) as (Hf & Ha & Hr & Hd).
    destruct (foldl range_row (all, seen) (rows_of_answer answer)) as [a s] eqn:Hacc.
    simpl.
    destruct (IH a s (World (log w ++ range_page_events url answer) (fs w)))
      as (evs & -> & Hf' & Hd').
    exists (range_page_events url answer ++ evs). cbn [log fs].
    rewrite rows_received_app, foldl_app, Hr, Hacc, <- app_assoc.
    split; [done|].
    rewrite fetched_app, delays_app, answers_app, Hf, Hf', Hd, Hd', Ha.
    split; [done|]. cbn [app]. rewrite filter_cons.
    destruct (parsed answer);
      [rewrite decide_True by done|rewrite decide_False by done]; done.
Qed.

End RangeLoop.

Lemma scrape_usernames_range_eq inet start end_ language w pages_needed :
  calculate_pages_needed start end_ = Ok pages_needed ->
  scrape_usernames_range inet start end_ language w =
    (Ok (range_window (range_loop inet language pages_needed w).1.1
                      start end_),
     (range_loop inet language pages_needed w).2).
Proof.
  intros E. unfold scrape_usernames_range. rewrite E.
  by destruct (range_loop inet language pages_needed w) as [[all seen] w'].
Qed.

(** ** Rows against the row rule *)

Lemma scan_links_none links all seen :
  filter (fun a => qualifies a = true) links = [] ->
  scan_links links all seen = (all, seen).
Proof.
  induction links as [|link links IH]; intros H; [done|].
  rewrite filter_cons in H. cbn [scan_links].
  change (truthy (a_text link) && startswith (get_href link) "/")
    with (qualifies link).
  destruct (qualifies link) eqn:Hq.
  - rewrite decide_True in H by done. done.
  - rewrite decide_False in H by done. by apply IH.
Qed.

Lemma scan_links_first links link rest all seen :
  filter (fun a => qualifies a = true) links = link :: rest ->
  a_text link ∉ all ->
  (scan_links links all seen).1 = all ++ [a_text link].
Proof.
  induction links as [|l links IH]; intros H Hnew; [done|].
  rewrite filter_cons in H. cbn [scan_links].
  change (truthy (a_text l) && startswith (get_href l) "/")
    with (qualifies l).
  destruct (qualifies l) eqn:Hq.
  - rewrite decide_True in H by done. simplify_eq.
    rewrite py_in_decide, bool_decide_eq_false_2 by done. done.
  - rewrite decide_False in H by done. by apply IH.
Qed.

Lemma scan_links_shows links name all seen :
  a_text <$> filter (fun a => qualifies a = true) links = [name] ->
  (scan_links links all seen).1 = add_new all name.
Proof.
  revert seen. induction links as [|l links IH]; intros seen H; [done|].
  rewrite filter_cons in H. cbn [scan_links].
  change (truthy (a_text l) && startswith (get_href l) "/")
    with (qualifies l).
  destruct (qualifies l) eqn:Hq.
  - rewrite decide_True in H by done. cbn [fmap list_fmap] in H.
    injection H as Hname Hrest. apply fmap_nil_inv in Hrest.
    unfold add_new. rewrite Hname. destruct (py_in name all); cbn [negb].
    + by rewrite scan_links_none.
    + done.
  - rewrite decide_False in H by done. by apply IH.
Qed.

Lemma range_rows_shows rows names all seen :
  Forall2 shows rows names ->
  (foldl range_row (all, seen) rows).1 = foldl add_new all names.
Proof.
  intros H. revert all seen.
  induction H as [|r name rows names Hr _ IH]; intros all seen; [done|].
  cbn [foldl]. unfold range_row at 2. cbn [fst snd].
  pose proof (scan_links_shows (find_all_a_href r) name all seen Hr) as E.
  destruct (scan_links (find_all_a_href r) all seen) as [all' seen'].
  cbn [fst] in E. rewrite E. apply IH.
Qed.

Lemma scan_links_truthy links all seen :
  Forall (fun u => truthy u = true) all ->
  Forall (fun u => truthy u = true) (scan_links links all seen).1.
Proof.
  revert seen. induction links as [|link links IH]; intros seen H; [done|].
  cbn [scan_links].
  destruct (truthy (a_text link)) eqn:Ht; cbn [andb]; [|by apply IH].
  destruct (startswith (get_href link) "/"); [|by apply IH].
  destruct (negb (py_in (a_text link) all)); [|by apply IH].
  cbn [fst]. apply Forall_app. split; [done|]. by constructor.
Qed.

Lemma range_rows_truthy rows all seen :
  Forall (fun u => truthy u = true) all ->
  Forall (fun u => truthy u = true) (foldl range_row (all, seen) rows).1.
Proof.
  revert all seen. induction rows as [|r rows IH]; intros all seen H; [done|].
  cbn [foldl]. unfold range_row at 2. cbn [fst snd].
  pose proof (scan_links_truthy (find_all_a_href r) all seen H) as H'.
  destruct (scan_links (find_all_a_href r) all seen) as [all' seen'].
  by apply IH.
Qed.

Lemma full_row_names_truthy (r : row) :
  Forall (fun u => truthy u = true) (full_row_names r).
Proof.
  unfold full_row_names. destruct (find_a_href r) as [link|]; [|done].
  destruct (truthy (a_text link)) eqn:Ht; cbn [andb]; [|done].
  destruct (startswith (get_href link) "/"); [|done]. by constructor.
Qed.

(** ** The walk of the full extractor *)

Section FullWalk.

Variable inet : internet.

Lemma full_row_eq us pu seen r :
  exists news,
    full_row (us, pu, seen) r = (us ++ news, pu ++ news, seen ++ full_row_names r) /\
    us ++ news = foldl add_new us (full_row_names r).
Proof.
  unfold full_row, full_row_names.
  destruct (find_a_href r) as [link|].
  2: { exists []. by rewrite !app_nil_r. }
  destruct (truthy (a_text link) && startswith (get_href link) "/").
  2: { exists []. by rewrite !app_nil_r. }
  simpl. unfold add_new. destruct (py_in (a_text link) us); simpl.
  - exists []. by rewrite !app_nil_r.
  - by exists [a_text link].
Qed.

Lemma full_rows_eq rows us pu seen :
  exists news,
    foldl full_row (us, pu, seen) rows =
      (us ++ news, pu ++ news, seen ++ flat_map full_row_names rows) /\
    us ++ news = foldl add_new us (flat_map full_row_names rows).
Proof.
  revert us pu seen. induction rows as [|r rows IH]; intros us pu seen.
  - exists []. by rewrite !app_nil_r.
  - cbn [foldl flat_map].
    destruct (full_row_eq us pu seen r) as (n1 & -> & E1).
    destruct (IH (us ++ n1) (pu ++ n1) (seen ++ full_row_names r))
      as (n2 & -> & E2).
    exists (n1 ++ n2). rewrite !app_assoc. split; [done|].
    rewrite foldl_app, <- E1. done.
Qed.

(** The walk of the full extractor: it always returns when the fuel
    covers the pages left below the ceiling, having requested the pages
    [page], [page + 1], ... in turn. *)
Lemma walk_run fuel base page us seen w :
  max_pages + 1 - page <= Z.of_nat fuel ->
  exists evs,
    walk inet fuel base page us seen w =
      Some (foldl add_new us (flat_map full_row_names (rows_received evs)),
            seen ++ flat_map full_row_names (rows_received evs),
            World (log w ++ evs) (fs w)) /\
    Z.of_nat (length (fetched evs)) <= Z.max 0 (max_pages + 1 - page) /\
    fetched evs =
      map (fun i => page_url base (page + Z.of_nat i))
          (seq 0 (length (fetched evs))).
Proof.
  revert page us seen w.
  induction fuel as [|fuel IH]; intros page us seen w Hfuel.
  - exists []. simpl.
    destruct (Z.leb_spec page max_pages); [lia|].
    destruct w; simpl; rewrite !app_nil_r. split_and!; [done|lia|done].
  - cbn [walk].
    destruct (Z.leb_spec page max_pages) as [Hle|Hgt].
    2: { exists []. destruct w; simpl; rewrite !app_nil_r.
         split_and!; [done|lia|done]. }
    unfold http_get. cbn [log fs].
    set (url := page_url base page).
    set (answer := inet (length (fetched (log w))) url).
    assert (Hone : fetched [Get url answer] = [url] /\
                   rows_received [Get url answer] = rows_of_answer answer).
    { simpl. by rewrite app_nil_r. }
    destruct Hone as [Hf1 Hr1].
    assert (Hurl : [url] = map (fun i => page_url base (page + Z.of_nat i)) (seq 0 1)).
    { simpl. by rewrite Z.add_0_r. }
    destruct answer as [[[[rows|]|] pg]|] eqn:Hans.
    4: { exists [Get url None]. rewrite Hr1, Hf1. simpl. rewrite app_nil_r.
         split_and!; [done|lia|]. by rewrite Z.add_0_r. }
    3: { exists [Get url (Some (Soup None pg))]. rewrite Hr1, Hf1. simpl.
         rewrite app_nil_r. split_and!; [done|lia|]. by rewrite Z.add_0_r. }
    2: { exists [Get url (Some (Soup (Some None) pg))]. rewrite Hr1, Hf1. simpl.
         rewrite app_nil_r. split_and!; [done|lia|]. by rewrite Z.add_0_r. }
    destruct rows as [|r rows].
    { exists [Get url (Some (Soup (Some (Some [])) pg))]. rewrite Hr1, Hf1. simpl.
      rewrite app_nil_r. split_and!; [done|lia|]. by rewrite Z.add_0_r. }
    cbn [table_channels].
    destruct (full_rows_eq (r :: rows) us [] seen) as (news & -> & Enews).
    cbn [app].
    destruct news as [|n news].
    { exists [Get url (Some (Soup (Some (Some (r :: rows))) pg))].
      rewrite Hr1, Hf1. cbn [rows_of_answer]. rewrite <- Enews, app_nil_r.
      split_and!; [done|simpl; lia|]. simpl. by rewrite Z.add_0_r. }
    destruct (goes_on _ _).
    2: { exists [Get url (Some (Soup (Some (Some (r :: rows))) pg))].
      rewrite Hr1, Hf1. cbn [rows_of_answer]. rewrite <- Enews.
      split_and!; [done|simpl; lia|]. simpl. by rewrite Z.add_0_r. }
    unfold sleep. cbn [log fs].
    destruct (IH (page + 1) (us ++ n :: news)
                 (seen ++ flat_map full_row_names (r :: rows))
                 (World ((log w ++ [Get url (Some (Soup (Some (Some (r :: rows))) pg))]) ++ [Sleep 1]) (fs w)))
      as (evs & -> & Hlen & Hfetched); [lia|].
    exists (Get url (Some (Soup (Some (Some (r :: rows))) pg)) :: Sleep 1 :: evs).
    cbn [log fs].
    change (Get url (Some (Soup (Some (Some (r :: rows))) pg)) :: Sleep 1 :: evs)
      with ([Get url (Some (Soup (Some (Some (r :: rows))) pg))] ++ [Sleep 1] ++ evs).
    rewrite !rows_received_app, !fetched_app, Hr1, Hf1.
    cbn [rows_of_answer]. change (rows_received [Sleep 1]) with (@nil row).
    change (fetched [Sleep 1]) with (@nil string). cbn [app].
    change (r :: rows ++ rows_received evs)
      with ((r :: rows) ++ rows_received evs).
    rewrite flat_map_app, foldl_app, <- Enews, <- !app_assoc.
    split_and!; [done|simpl; lia|].
    cbn [length seq map]. rewrite Z.add_0_r. f_equal.
    rewrite Hfetched at 1. rewrite <- seq_shift, map_map.
    apply map_ext. intros i. f_equal. lia.
Qed.

End FullWalk.

Lemma walk_unfold inet fuel base page us seen w :
  walk inet fuel base page us seen w =
    if page <=? max_pages then
      match fuel with
      | O => None
      | S fuel =>
          let '(response, w) := http_get inet (page_url base page) w in
          match response with
          | None => Some (us, seen, w)
          | Some soup =>
              match table_channels soup with
              | None => Some (us, seen, w)
              | Some None => Some (us, seen, w)
              | Some (Some []) => Some (us, seen, w)
              | Some (Some rows) =>
                  let '(usernames, page_usernames, seen) :=
                    foldl full_row (us, [], seen) rows in
                  match page_usernames with
                  | [] => Some (usernames, seen, w)
                  | _ =>
                      if goes_on soup page_usernames
                      then walk inet fuel base (page + 1) usernames seen
                             (sleep 1 w)
                      else Some (usernames, seen, w)
                  end
              end
          end
      end
    else Some (us, seen, w).
Proof. destruct fuel; reflexivity. Qed.

Lemma walk_more_fuel inet fuel base page us seen w r :
  walk inet fuel base page us seen w = Some r ->
  walk inet (S fuel) base page us seen w = Some r.
Proof.
  revert page us seen w.
  induction fuel as [|fuel IH]; intros page us seen w H;
    rewrite walk_unfold in H; rewrite walk_unfold.
  - by case_match.
  - repeat case_match; simplify_eq; try done.
    all: by apply IH.
Qed.

Lemma walk_fuel_le inet fuel fuel' base page us seen w r :
  (fuel <= fuel')%nat ->
  walk inet fuel base page us seen w = Some r ->
  walk inet fuel' base page us seen w = Some r.
Proof.
  induction 1 as [|fuel' _ IH]; [done|].
  intros H. by apply walk_more_fuel, IH.
Qed.

(** ** The range extractor on a source that presents its items *)

Section OnListing.

Variable inet : internet.
Variable base_url : string.
Variable items : list string.
Hypothesis Hsite : presents inet base_url items.

Lemma range_pages_listing (k a : nat) (all seen : list string) (w : world) :
  (1 <= a)%nat ->
  NoDup (all ++ take (50 * k) (drop (50 * (a - 1)) items)) ->
  (foldl (range_page inet base_url) (all, seen, w)
         (map (fun i => Z.of_nat a + Z.of_nat i) (seq 0 k))).1.1
  = all ++ take (50 * k) (drop (50 * (a - 1)) items).
Proof.
  revert a all seen w.
  induction k as [|k IH]; intros a all seen w Ha Hnodup.
  - cbn. by rewrite app_nil_r.
  - cbn [seq map foldl]. rewrite Z.add_0_r, range_page_eq. cbv zeta.
    set (answer := inet (length (fetched (log w)))
                        (page_url base_url (Z.of_nat a))).
    destruct Hsite as [_ Hpages].
    pose proof (Hpages (length (fetched (log w))) a Ha) as Hrows.
    fold answer in Hrows.
    assert (Hsplit : take (50 * S k) (drop (50 * (a - 1)) items)
                     = page_items items a
                       ++ take (50 * k) (drop (50 * (S a - 1)) items)).
    { unfold page_items.
      replace (50 * S k)%nat with (50 + 50 * k)%nat by lia.
      rewrite <- take_take_drop, drop_drop. do 3 f_equal. lia. }
    rewrite Hsplit, app_assoc in Hnodup.
    rewrite <- seq_shift, map_map.
    rewrite (map_ext _ (fun i => Z.of_nat (S a) + Z.of_nat i))
      by (intros i; lia).
    rewrite IH; [|lia|].
    + rewrite (range_rows_shows _ _ _ _ Hrows).
      rewrite foldl_add_new_fresh by (by apply NoDup_app in Hnodup as [? _]).
      by rewrite Hsplit, app_assoc.
    + rewrite (range_rows_shows _ _ _ _ Hrows).
      by rewrite foldl_add_new_fresh
        by (by apply NoDup_app in Hnodup as [? _]).
Qed.

End OnListing.

Lemma range_loop_on_listing (inet : internet)
    (language : option string) (items : list string)
    (start end_ : Z) (w : world) :
  presents inet (range_base_url language) items ->
  1 <= start -> start <= end_ ->
  let first_page := Z.to_nat (ceil_div start 50) in
  let last_page := Z.to_nat (ceil_div end_ 50) in
  (range_loop inet language
     (range (ceil_div start 50) (ceil_div end_ 50 + 1)) w).1.1
  = take (50 * (last_page + 1 - first_page))
         (drop (50 * (first_page - 1)) items).
Proof.
  intros Hsite H1 H2. cbv zeta.
  pose proof (ceil_div_50_pos start H1) as Hsp.
  pose proof (ceil_div_50_mono start end_ H2) as Hmono.
  unfold range_loop, range.
  rewrite (map_ext _ (fun i => Z.of_nat (Z.to_nat (ceil_div start 50))
                               + Z.of_nat i)) by (intros i; lia).
  replace (Z.to_nat (ceil_div end_ 50 + 1 - ceil_div start 50))
    with (Z.to_nat (ceil_div end_ 50) + 1 - Z.to_nat (ceil_div start 50))%nat
    by lia.
  rewrite (range_pages_listing inet _ items Hsite); [done|lia|].
  cbn [app]. destruct Hsite as [Hnodup _].
  eapply sublist_NoDup; [exact Hnodup|].
  etrans; [apply sublist_take|apply sublist_drop].
Qed.

Lemma shows_channel_row (name : string) :
  truthy name = true -> shows (Sample.channel_row name) name.
Proof.
  intros H. unfold shows, Sample.channel_row, find_all_a_href.
  rewrite !filter_cons, filter_nil. cbn [a_href].
  rewrite !decide_True by (by eexists).
  rewrite !filter_cons, filter_nil.
  rewrite decide_False by (by vm_compute).
  rewrite decide_True; [done|].
  unfold qualifies. cbn [a_text get_href a_href default].
  rewrite H. by destruct name.
Qed.

Lemma listing_site_presents (items : list string) :
  NoDup items -> Forall (fun u => truthy u = true) items ->
  presents (Sample.listing_site Sample.channel_row items) Sample.base items.
Proof.
  intros Hnodup Hnames. split; [done|]. intros n p Hp.
  unfold Sample.listing_site.
  destruct (list_find _ _) as [[i p']|] eqn:Hfind.
  - apply list_find_Some in Hfind as (_ & Hurl & _).
    apply page_url_inj in Hurl. assert (p' = p) as -> by lia.
    cbn [rows_of_answer]. apply Forall2_fmap_l, Forall_Forall2_diag.
    eapply Forall_impl; [|intros u; apply shows_channel_row].
    unfold page_items. by apply Forall_take, Forall_drop.
  - cbn [rows_of_answer].
    assert (length items < p)%nat as Hlen.
    { apply list_find_None in Hfind.
      destruct (decide (p <= length items)%nat) as [Hle|]; [|lia].
      exfalso. rewrite Forall_forall in Hfind.
      apply (Hfind p); [|done]. apply elem_of_seq. lia. }
    unfold page_items. rewrite drop_ge by lia. constructor.
Qed.

Lemma sample_listing_presents :
  presents (Sample.listing_site Sample.channel_row (Sample.names 1 100))
           (range_base_url None) (Sample.names 1 100).
Proof.
  apply listing_site_presents.
  - compute_done.
  - apply Forall_forall. intros u Hu.
    apply list_elem_of_fmap in Hu as (i & -> & _). reflexivity.
Defined.

(** ** Names and the rows they come from *)

Lemma scan_links_sound links all seen :
  exists extra,
    scan_links links all seen = (foldl add_new all extra, seen ++ extra) /\
    Forall (fun u => exists a, a ∈ links /\ qualifies a = true /\ a_text a = u)
           extra.
Proof.
  revert seen. induction links as [|link links IH]; intros seen.
  - exists []. cbn. by rewrite app_nil_r.
  - cbn [scan_links].
    change (truthy (a_text link) && startswith (get_href link) "/")
      with (qualifies link).
    destruct (qualifies link) eqn:Hq.
    + assert (Hlink : exists a, a ∈ link :: links /\ qualifies a = true
                                /\ a_text a = a_text link).
      { exists link. split; [left|done]. }
      destruct (py_in (a_text link) all) eqn:Hin; cbn [negb].
      * destruct (IH (seen ++ [a_text link])) as (extra & -> & Hextra).
        exists (a_text link :: extra). cbn [foldl].
        replace (add_new all (a_text link)) with all
          by (unfold add_new; by rewrite Hin).
        rewrite <- app_assoc. split; [done|]. constructor; [done|].
        eapply Forall_impl; [exact Hextra|].
        intros u (a & Ha & ?). exists a. split; [by right|done].
      * exists [a_text link]. cbn [foldl]. unfold add_new. rewrite Hin.
        split; [done|]. by constructor.
    + destruct (IH seen) as (extra & -> & Hextra).
      exists extra. split; [done|].
      eapply Forall_impl; [exact Hextra|].
      intros u (a & Ha & ?). exists a. split; [by right|done].
Qed.

Lemma range_rows_sound rows all seen u :
  u ∈ (foldl range_row (all, seen) rows).1 ->
  u ∈ all \/
  exists r a, r ∈ rows /\ a ∈ find_all_a_href r /\ qualifies a = true
              /\ a_text a = u.
Proof.
  revert all seen. induction rows as [|r rows IH]; intros all seen Hu.
  - by left.
  - cbn [foldl] in Hu. unfold range_row at 2 in Hu. cbn [fst snd] in Hu.
    destruct (scan_links_sound (find_all_a_href r) all seen)
      as (extra & E & Hextra).
    rewrite E in Hu. apply IH in Hu as [Hu|(r' & a & Hr' & Ha)].
    + apply elem_of_foldl_add_new in Hu as [Hu|Hu]; [by left|right].
      rewrite Forall_forall in Hextra.
      destruct (Hextra u Hu) as (a & Ha). exists r, a. split; [left|done].
    + right. exists r', a. split; [by right|done].
Qed.

Lemma scan_links_keeps links all seen u :
  u ∈ all -> u ∈ (scan_links links all seen).1.
Proof.
  intros Hu. destruct (scan_links_extends links all seen) as (extra & ->).
  apply elem_of_foldl_add_new. by left.
Qed.

Lemma range_rows_keep rows all seen u :
  u ∈ all -> u ∈ (foldl range_row (all, seen) rows).1.
Proof.
  intros Hu. destruct (range_rows_extends rows all seen) as (extra & ->).
  apply elem_of_foldl_add_new. by left.
Qed.

Lemma range_rows_complete rows all seen r u :
  r ∈ rows -> spec_row_username r = Some u ->
  u ∈ (foldl range_row (all, seen) rows).1.
Proof.
  intros Hr Hu. revert all seen.
  induction rows as [|r' rows IH]; intros all seen;
    [by apply elem_of_nil in Hr|].
  cbn [foldl]. unfold range_row at 2. cbn [fst snd].
  destruct (scan_links (find_all_a_href r') all seen) as [all' seen'] eqn:E.
  apply elem_of_cons in Hr as [<-|Hr]; [|by apply IH].
  apply range_rows_keep.
  replace all' with (scan_links (find_all_a_href r) all seen).1
    by (by rewrite E).
  destruct (decide (u ∈ all)) as [Hin|Hnew]; [by apply scan_links_keeps|].
  unfold spec_row_username in Hu.
  apply fmap_Some in Hu as (link & Hhead & ->).
  apply head_Some in Hhead as [rest Hfilter].
  rewrite (scan_links_first _ _ _ _ seen Hfilter Hnew).
  apply elem_of_app. right. left.
Qed.

(** ** The running list of the range extractor, row by row *)

Lemma scan_links_adds links all seen :
  (scan_links links all seen).1
  = all ++ option_list
             (head (filter (fun u => u ∉ all)
                      (a_text <$> filter (fun a => qualifies a = true) links))).
Proof.
  revert seen. induction links as [|link links IH]; intros seen.
  - cbn. by rewrite app_nil_r.
  - cbn [scan_links].
    change (truthy (a_text link) && startswith (get_href link) "/")
      with (qualifies link).
    rewrite filter_cons. destruct (qualifies link) eqn:Hq.
    + rewrite decide_True by done. cbn [fmap list_fmap]. rewrite filter_cons.
      rewrite py_in_decide.
      destruct (decide (a_text link ∈ all)) as [Hin|Hnew].
      * rewrite bool_decide_eq_true_2 by done. cbn [negb].
        rewrite decide_False by (intros H; by apply H). apply IH.
      * rewrite bool_decide_eq_false_2 by done. cbn [negb].
        by rewrite decide_True by done.
    + rewrite decide_False by (by intros ?). apply IH.
Qed.

Lemma range_row_adds (all seen : list string) (r : row) :
  (range_row (all, seen) r).1 = takes_from_row all r.
Proof. unfold range_row. cbn [fst snd]. apply scan_links_adds. Qed.

Lemma range_rows_add rows all seen :
  (foldl range_row (all, seen) rows).1 = foldl takes_from_row all rows.
Proof.
  revert all seen. induction rows as [|r rows IH]; intros all seen; [done|].
  cbn [foldl]. pose proof (range_row_adds all seen r) as E.
  destruct (range_row (all, seen) r) as [all' seen']. cbn [fst] in E.
  by rewrite IH, E.
Qed.

Lemma takes_from_single (all : list string) (r : row) :
  (length (link_names r) <= 1)%nat ->
  takes_from_row all r
  = foldl add_new all (option_list (spec_row_username r)).
Proof.
  unfold takes_from_row, row_adds, spec_row_username, link_names.
  destruct (filter (fun a => qualifies a = true) (find_all_a_href r))
    as [|a [|b links]]; cbn [fmap list_fmap length]; intros Hlen; [| |lia].
  - cbn. by rewrite app_nil_r.
  - rewrite filter_cons, filter_nil.
    change (option_list (a_text <$> head [a])) with [a_text a].
    cbn [foldl]. unfold add_new.
    rewrite py_in_decide.
    destruct (decide (a_text a ∈ all)) as [Hin|Hnew].
    + rewrite bool_decide_eq_true_2 by done.
      rewrite decide_False by (intros H; by apply H). cbn.
      by rewrite app_nil_r.
    + rewrite bool_decide_eq_false_2 by done.
      by rewrite decide_True by done.
Qed.

Lemma first_new_names_single rows all :
  Forall (fun r => (length (link_names r) <= 1)%nat) rows ->
  foldl takes_from_row all rows
  = foldl add_new all (omap spec_row_username rows).
Proof.
  intros H. revert all. induction H as [|r rows Hr _ IH]; intros all; [done|].
  cbn [foldl omap list_omap]. rewrite IH, (takes_from_single all r Hr).
  by destruct (spec_row_username r).
Qed.

(** ** Where the delays of the range loop fall *)

Lemma delay_follows_parsed_page (url : string) (answer : option soup)
    (evs : list event) :
  delay_follows_parsed evs = true ->
  delay_follows_parsed (range_page_events url answer ++ evs) = true.
Proof.
  unfold range_page_events. intros H.
  destruct (parsed answer) eqn:Hp; cbn [app delay_follows_parsed];
    rewrite Hp.
  - by rewrite H.
  - by destruct evs as [|[url' answer'|secs] evs].
Qed.

Lemma range_pages_paced (inet : internet) (base : string) (pages : list Z)
    (all seen : list string) (w : world) (evs : list event) :
  (foldl (range_page inet base) (all, seen, w) pages).2
    = World (log w ++ evs) (fs w) ->
  delay_follows_parsed evs = true.
Proof.
  revert all seen w evs.
  induction pages as [|p pages IH]; intros all seen w evs H.
  - cbn in H. apply (f_equal log) in H. cbn [log] in H.
    rewrite <- (app_nil_r (log w)) in H at 1.
    by apply app_inv_head in H as <-.
  - cbn [foldl] in H. rewrite range_page_eq in H. cbv zeta in H.
    set (rpe := range_page_events _ _) in H.
    set (acc := foldl range_row (all, seen) _) in H.
    destruct (range_pages_run inet base pages acc.1 acc.2
                (World (log w ++ rpe) (fs w))) as (evs' & E & _).
    pose proof (IH acc.1 acc.2 (World (log w ++ rpe) (fs w)) evs') as Hrest.
    rewrite E in H, Hrest. cbn [snd log fs] in H, Hrest.
    injection H as H. rewrite <- app_assoc in H.
    apply app_inv_head in H as <-.
    apply delay_follows_parsed_page. by apply Hrest.
Qed.

(** ** The CSV writer against the amended wording *)

Lemma spec_needs_quotes_eq (u : string) :
  spec_needs_quotes u = Csv.has_special u.
Proof.
  unfold spec_needs_quotes.
  induction u as [|c u IH]; [done|].
  cbn [list_ascii_of_string existsb Csv.has_special]. rewrite IH. f_equal.
  unfold Csv.special.
  destruct (Ascii.eqb_spec c Csv.comma) as [->|H1]; [done|].
  destruct (Ascii.eqb_spec c Csv.dquote) as [->|H2]; [done|].
  destruct (Ascii.eqb_spec c Csv.cr) as [->|H3]; [done|].
  destruct (Ascii.eqb_spec c Csv.lf) as [->|H4]; [done|].
  apply bool_decide_eq_false_2.
  rewrite !elem_of_cons, elem_of_nil. tauto.
Qed.

Lemma spec_doubled_eq (u : string) : spec_doubled u = Csv.double_quotes u.
Proof.
  unfold spec_doubled. induction u as [|c u IH]; [done|].
  cbn [list_ascii_of_string flat_map Csv.double_quotes].
  destruct (Ascii.eqb c Csv.dquote) eqn:Hc.
  - apply Ascii.eqb_eq in Hc as ->.
    cbn [app string_of_list_ascii]. by rewrite IH.
  - cbn [app string_of_list_ascii]. by rewrite IH.
Qed.

Lemma writerow_spec_written (u : string) :
  truthy u = true -> Csv.writerow [u] = spec_written u +:+ Csv.crlf.
Proof.
  intros Hu. unfold Csv.writerow, Csv.field, spec_written.
  cbn [map length Nat.eqb String.concat].
  rewrite spec_needs_quotes_eq, spec_doubled_eq.
  unfold truthy in Hu. apply negb_true_iff in Hu. rewrite Hu.
  cbn [andb]. rewrite orb_false_r.
  by destruct (Csv.has_special u).
Qed.

(** ** The handlers *)

Lemma call_on_text (inet : internet) (start end_ : Z)
    (language : option string) (w : world) :
  call_scrape_usernames_range inet start end_ (Text <$> language) w
  = match scrape_usernames_range inet start end_ language w with
    | (Raise e, w) => (Failed (str_of_exn e), w)
    | (Ok usernames, w) => (Done usernames, w)
    end.
Proof. by destruct language. Qed.

Lemma call_done (inet : internet) (start end_ : Z) (language : option jstr)
    (w w' : world) (usernames : list string) :
  call_scrape_usernames_range inet start end_ language w
    = (Done usernames, w') ->
  scrape_usernames_range inet start end_ (language ≫= text_of) w
    = (Ok usernames, w').
Proof.
  unfold call_scrape_usernames_range. intros H.
  destruct language as [[l|error]|]; cbn [mbind option_bind text_of] in *.
  - destruct (scrape_usernames_range _ _ _ _ _) as [[us|e] w1];
      by simplify_eq.
  - by destruct (calculate_pages_needed start end_).
  - destruct (scrape_usernames_range _ _ _ _ _) as [[us|e] w1];
      by simplify_eq.
Qed.

Lemma download_attachment (inet : internet) (py_strip : string -> string)
    (rq : request_json) (w w' : world) (start end_ : Z)
    (language : option jstr) (usernames : list string) :
  read_request py_strip rq = Done (start, end_, language) ->
  1 <= start -> start <= end_ ->
  call_scrape_usernames_range inet start end_ language w
    = (Done usernames, w') ->
  download inet py_strip rq w =
    (Response 200
       (Attachment "text/csv"
          (download_name_of start end_ (language ≫= text_of))
          (write_csv usernames)), w').
Proof.
  intros E H1 H2 H. unfold download. rewrite E.
  assert ((start <? 1) || (end_ <? start) = false) as ->.
  { apply orb_false_iff. rewrite !Z.ltb_ge. done. }
  by rewrite H.
Qed.

(** * The claims *)

(** C1: on a site that lists 100 names 50 per page, the range (51, 60)
    computes the page set [2] and requests that page only, as claimed;
    from the 50 names of that page it then returns none, where the claim
    asks for the names at positions 51 to 60. *)
Theorem range_extractor_loses_offset :
  let items := Sample.names 1 100 in
  let site := Sample.listing_site Sample.channel_row items in
  let run := scrape_usernames_range site 51 60 None empty_world in
  calculate_pages_needed 51 60 = Ok [2] /\
  fetched (log run.2) = [page_url Sample.base 2] /\
  run.1 = Ok [] /\
  py_slice items 50 60 =
    ["u51"; "u52"; "u53"; "u54"; "u55"; "u56"; "u57"; "u58"; "u59"; "u60"].
Proof. vm_compute. done. Qed.

(** C2: a row as [app.py] describes it, the image link before the link
    with the name, gives the full extractor no username, where the
    rule of the specification selects the name; and the range extractor,
    on a row whose first qualifying link is already in the running
    list, takes the next qualifying link of the row instead of
    contributing nothing. *)
Theorem row_rule_divergence :
  let row := Sample.channel_row "KaiCenat" in
  let site := Sample.listing_site Sample.channel_row ["KaiCenat"] in
  let two := [Anchor (Some "/alice") "Alice"; Anchor (Some "/bob") "Bob"] in
  spec_row_username row = Some "KaiCenat" /\
  full_row ([], [], []) row = ([], [], []) /\
  fst <$> scrape_usernames site Sample.base "out.csv" empty_world = Some [] /\
  (scrape_usernames_range site 1 1 None empty_world).1 = Ok ["KaiCenat"] /\
  spec_row_username two = Some "Alice" /\
  (range_row (["Alice"], ["Alice"]) two).1 = ["Alice"; "Bob"].
Proof. vm_compute. done. Qed.

(** C3: position [50 * 2 ^ 48 + 1] lies on page [2 ^ 48 + 1], the
    exact ceiling of its quotient by 50, past page [2 ^ 48], which ends
    at position [50 * 2 ^ 48].  The float quotient rounds to [2 ^ 48]:
    that is the one page the function returns, where its docstring
    promises the page numbers needed, and the one page the range
    extractor requests for that position. *)
Theorem calculate_pages_needed_far_position :
  Sample.far_position = 50 * 2 ^ 48 + 1 /\
  1 <= Sample.far_position /\
  calculate_pages_needed Sample.far_position Sample.far_position
    = Ok [2 ^ 48] /\
  range (ceil_div Sample.far_position 50)
        (ceil_div Sample.far_position 50 + 1) = [2 ^ 48 + 1] /\
  fetched (log (scrape_usernames_range Sample.offline Sample.far_position
                  Sample.far_position None empty_world).2)
  = [page_url Sample.base (2 ^ 48)].
Proof. split_and!; by vm_compute. Qed.

(** C4: in every run of either extractor the running list holds no
    name twice and is the stream of extracted names with every
    repetition dropped; the stream is that of the rows received, page
    by page and row by row.  For the range extractor the list is told
    from the rows alone: each row received, in order, gives it the text
    of its first qualifying hyperlink that the list does not hold yet;
    so every name of the list is the text of a qualifying hyperlink of
    a row received, the name that the row rule gives for a row received
    is always in the list, and when no row received has two qualifying
    hyperlinks the list is exactly the names of the row rule, row by
    row, with every repetition dropped.  The range extractor returns a
    contiguous window of its running list, so what it returns holds no
    name twice and keeps the order.  Dropping the repetitions leaves
    each name where it first occurred: right after the distinct names
    that came before its first occurrence. *)
Theorem running_list_is_first_seen (inet : internet) :
  (forall language pages w,
     exists all_usernames seen evs,
       range_loop inet language pages w =
         (all_usernames, seen, World (log w ++ evs) (fs w)) /\
       (all_usernames, seen) = foldl range_row ([], []) (rows_received evs) /\
       NoDup all_usernames /\
       all_usernames = first_seen seen /\
       all_usernames = first_new_names (rows_received evs) /\
       (forall u, u ∈ all_usernames ->
          exists r a, r ∈ rows_received evs /\ a ∈ find_all_a_href r /\
                      qualifies a = true /\ a_text a = u) /\
       (forall r u, r ∈ rows_received evs -> spec_row_username r = Some u ->
          u ∈ all_usernames) /\
       (Forall (fun r => (length (link_names r) <= 1)%nat)
               (rows_received evs) ->
          all_usernames
          = first_seen (omap spec_row_username (rows_received evs))) /\
       forall start end_,
         NoDup (range_window all_usernames start end_) /\
         range_window all_usernames start end_ `sublist_of` all_usernames) /\
  (forall base_url w,
     exists usernames seen evs,
       walk inet (Z.to_nat max_pages) base_url 1 [] [] w =
         Some (usernames, seen, World (log w ++ evs) (fs w)) /\
       seen = flat_map full_row_names (rows_received evs) /\
       NoDup usernames /\
       usernames = first_seen seen) /\
  (forall before name after,
     name ∉ before ->
     exists rest,
       first_seen (before ++ name :: after)
         = first_seen before ++ name :: rest).
Proof.
  split_and!; [| |apply first_seen_position].
  - intros language pages w. unfold range_loop.
    destruct (range_pages_run inet (range_base_url language) pages [] [] w)
      as (evs & -> & _).
    pose proof (range_rows_add (rows_received evs) [] []) as Hadds.
    pose proof (fun u => range_rows_sound (rows_received evs) [] [] u)
      as Hsound.
    pose proof (fun r u => range_rows_complete (rows_received evs) [] [] r u)
      as Hcomplete.
    destruct (range_rows_extends (rows_received evs) [] []) as [extra E].
    rewrite E in Hadds, Hsound, Hcomplete |- *. cbn [fst snd app] in *.
    eexists _, _, evs. split_and!; try done.
    + apply first_seen_NoDup.
    + intros u Hu. destruct (Hsound u Hu) as [[]%elem_of_nil|H]. done.
    + intros Hsingle. rewrite Hadds. by apply first_new_names_single.
    + intros start end_. split; [|apply range_window_sublist].
      eapply sublist_NoDup; [apply first_seen_NoDup|].
      apply range_window_sublist.
  - intros base_url w.
    destruct (walk_run inet (Z.to_nat max_pages) base_url 1 [] [] w)
      as (evs & -> & _); [by vm_compute|].
    eexists _, _, evs. split_and!; try done.
    apply first_seen_NoDup.
Qed.

(** Where a row has two qualifying hyperlinks the range extractor
    departs from the row rule (C2), not from the first-seen order of
    what it extracts: a row whose first qualifying hyperlink is already
    in the list gives its second.  From the rows [Alice], [Alice; Bob],
    [Carol], [Bob] it extracts Alice, Alice, Bob, Carol, Bob and keeps
    [Alice; Bob; Carol], where the names of the row rule, Alice, Alice,
    Carol, Bob, give [Alice; Carol; Bob]. *)
Example first_new_names_two_links :
  let link name := Anchor (Some ("/" +:+ name)) name in
  let rows := [[link "Alice"]; [link "Alice"; link "Bob"];
               [link "Carol"]; [link "Bob"]] in
  foldl range_row ([], []) rows
  = (["Alice"; "Bob"; "Carol"], ["Alice"; "Alice"; "Bob"; "Carol"; "Bob"]) /\
  first_new_names rows = ["Alice"; "Bob"; "Carol"] /\
  omap spec_row_username rows = ["Alice"; "Alice"; "Carol"; "Bob"] /\
  first_seen (omap spec_row_username rows) = ["Alice"; "Carol"; "Bob"].
Proof. by vm_compute. Qed.

(** C5: with every fetch failing, two pages are processed and no delay
    is observed; with a failed fetch, a page without table, a page
    without table body and a good page, four pages are processed and
    one delay is observed. *)
Theorem range_delay_skipped_on_failure :
  let down := scrape_usernames_range Sample.offline 1 100 None empty_world in
  let flaky :=
    scrape_usernames_range Sample.flaky_site 1 200 None empty_world in
  calculate_pages_needed 1 100 = Ok [1; 2] /\
  length (fetched (log down.2)) = 2%nat /\
  delays (log down.2) = [] /\
  calculate_pages_needed 1 200 = Ok [1; 2; 3; 4] /\
  length (fetched (log flaky.2)) = 4%nat /\
  delays (log flaky.2) = [1].
Proof. vm_compute. done. Qed.

(** C6: whatever the site answers, the walk of the full extractor
    returns, having made at most 100 requests; more fuel than the 100
    iterations the function is run with changes nothing. *)
Theorem full_walk_within_ceiling (inet : internet)
    (base_url output_file : string) (w : world) :
  exists usernames w',
    scrape_usernames inet base_url output_file w = Some (usernames, w') /\
    (length (fetched (log w')) <= length (fetched (log w)) + 100)%nat /\
    forall fuel, (100 <= fuel)%nat ->
      walk inet fuel base_url 1 [] [] w =
      walk inet (Z.to_nat max_pages) base_url 1 [] [] w.
Proof.
  unfold scrape_usernames.
  destruct (walk_run inet (Z.to_nat max_pages) base_url 1 [] [] w)
    as (evs & E & Hlen & _); [by vm_compute|].
  rewrite E. eexists _, _. split; [done|]. split.
  - cbn [write_file log]. rewrite fetched_app, length_app.
    change (0 `max` (max_pages + 1 - 1)) with 100 in Hlen. lia.
  - intros fuel Hfuel. eapply walk_fuel_le; [|exact E].
    change (Z.to_nat max_pages) with 100%nat. lia.
Qed.

(** A site whose every page gives 25 new names and whose [Next] link
    is never disabled: the walk goes up to page 100 and stops there. *)
Example walk_reaches_ceiling :
  let run := scrape_usernames Sample.endless_site Sample.base "out.csv"
               empty_world in
  (fun r => (length r.1, length (fetched (log r.2)),
             last (fetched (log r.2)))) <$> run
  = Some (2500%nat, 100%nat, Some (page_url Sample.base 100)).
Proof. vm_compute. reflexivity. Qed.

(** C7, as amended: on a request whose three reads return, a range
    with [start < 1] or [end < start] is answered by both handlers with
    status 400, the world left as it was, so without any request to the
    site; and a range with [start >= 1] and [end >= start] is never
    answered with status 400: both handlers then call the range
    extractor on that range.  On a request of which a read raises, both
    handlers answer with status 500 and the text of the exception,
    whatever the range, the world left as it was. *)
Theorem invalid_range_rejected (inet : internet) (py_strip : string -> string)
    (rq : request_json) (w : world) :
  let rejected := (Response 400 (JsonError invalid_range_message), w) in
  match read_request py_strip rq with
  | Done (start, end_, language) =>
      let run := call_scrape_usernames_range inet start end_ language w in
      (start < 1 \/ end_ < start ->
         scrape inet py_strip rq w = rejected /\
         download inet py_strip rq w = rejected) /\
      (1 <= start /\ start <= end_ ->
         status (scrape inet py_strip rq w).1 <> 400 /\
         status (download inet py_strip rq w).1 <> 400 /\
         (scrape inet py_strip rq w).2 = run.2 /\
         (download inet py_strip rq w).2 = run.2)
  | Failed message =>
      scrape inet py_strip rq w = (Response 500 (JsonError message), w) /\
      download inet py_strip rq w = (Response 500 (JsonError message), w)
  end.
Proof.
  cbv zeta. unfold scrape, download.
  destruct (read_request py_strip rq) as [[[start end_] language]|message];
    [|done].
  split.
  - intros H.
    assert ((start <? 1) || (end_ <? start) = true) as ->.
    { apply orb_true_iff. rewrite !Z.ltb_lt. done. }
    done.
  - intros [H1 H2].
    assert ((start <? 1) || (end_ <? start) = false) as ->.
    { apply orb_false_iff. rewrite !Z.ltb_ge. done. }
    destruct (call_scrape_usernames_range _ _ _ _ _) as [[usernames|e] w'];
      cbn [fst snd status]; done.
Qed.

(** A rejected range and an accepted one, on a site that is down.
    The sample requests carry no language, so [id] in the place of
    [str.strip] is as good as any function. *)
Lemma invalid_range_rejected_witness :
  scrape Sample.offline id (RequestJson (Got 0) (Got 5) Missing) empty_world
    = (Response 400 (JsonError invalid_range_message), empty_world) /\
  download Sample.offline id (RequestJson (Got 7) (Got 5) Missing) empty_world
    = (Response 400 (JsonError invalid_range_message), empty_world) /\
  status (scrape Sample.offline id (RequestJson (Got 1) (Got 5) Missing)
            empty_world).1 <> 400.
Proof.
  split_and!.
  - apply (invalid_range_rejected Sample.offline id
             (RequestJson (Got 0) (Got 5) Missing) empty_world).
    left. reflexivity.
  - apply (invalid_range_rejected Sample.offline id
             (RequestJson (Got 7) (Got 5) Missing) empty_world).
    right. reflexivity.
  - apply (invalid_range_rejected Sample.offline id
             (RequestJson (Got 1) (Got 5) Missing) empty_world).
    split; discriminate.
Defined.

(** C7, as stated, fails on a request with [start] 0, [end] 5 and
    [language] [null]: [None.strip()] raises before the range is
    looked at, and both handlers answer with status 500.  It fails
    likewise on a body that [request.json] refuses, as it does an
    integer literal beyond the length the decoder takes, whatever
    range the body spells and whatever the text of the exception. *)
Lemma invalid_range_answered_500 :
  let no_strip := "'NoneType' object has no attribute 'strip'" in
  let null_language := RequestJson (Got 0) (Got 5) (Fails no_strip) in
  let refused message := RequestJson (Fails message) (Got 5) Missing in
  0 < 1 /\
  scrape Sample.offline id null_language empty_world
    = (Response 500 (JsonError no_strip), empty_world) /\
  download Sample.offline id null_language empty_world
    = (Response 500 (JsonError no_strip), empty_world) /\
  (forall message,
     scrape Sample.offline id (refused message) empty_world
       = (Response 500 (JsonError message), empty_world) /\
     download Sample.offline id (refused message) empty_world
       = (Response 500 (JsonError message), empty_world)).
Proof. cbv zeta. split_and!; [done..|]. intros message. by split. Qed.

(** C8, as amended: for every list of usernames, each non-empty (as
    every extracted username is), the CSV text, whose UTF-8 bytes are
    the file, is exactly the header line [twitch_username] followed by
    one line per username in result order, each line ended by CR LF;
    the line of a username free of commas, double quotes, carriage
    returns and line feeds is the username itself, and a username with
    one of those characters is written between double quotes, each
    double quote inside written twice.  So a list of usernames all free
    of those characters gives the header line and the usernames
    themselves, one per line.  [write_csv] is the text of both the
    attachment of [/download] ([download_attachment]) and the file of
    the full extractor (C10). *)
Theorem write_csv_plain_lines (usernames : list string) :
  Forall (fun u => truthy u = true) usernames ->
  write_csv usernames = spec_csv_quoted usernames /\
  (Forall (fun u => spec_needs_quotes u = false) usernames ->
   write_csv usernames = spec_csv usernames).
Proof.
  intros H.
  assert (Hquoted : write_csv usernames = spec_csv_quoted usernames).
  { rewrite write_csv_rows. unfold spec_csv_quoted.
    cbn [map String.concat].
    assert (map (fun u => Csv.writerow [u]) usernames
            = map (fun line => line +:+ Csv.crlf)
                  (map spec_written usernames)) as ->.
    { induction H as [|u us Hu _ IH]; [done|].
      cbn [map]. by rewrite IH, writerow_spec_written. }
    destruct (map _ (map spec_written usernames)); [|done].
    cbn [String.concat]. by rewrite string_app_nil_r. }
  split; [done|]. intros Hplain. rewrite Hquoted.
  unfold spec_csv_quoted, spec_csv. do 3 f_equal.
  clear H Hquoted. induction Hplain as [|u us Hu _ IH]; [done|].
  cbn [map]. rewrite IH. f_equal. unfold spec_written. by rewrite Hu.
Qed.

(** The example of the specification, Alice, then Bob; and a
    username with a double quote and a carriage return. *)
Lemma write_csv_plain_lines_witness :
  let q := String Csv.dquote EmptyString in
  let r := String Csv.cr EmptyString in
  write_csv ["Alice"; "Bob"] =
    "twitch_username" +:+ Csv.crlf +:+ "Alice" +:+ Csv.crlf
    +:+ "Bob" +:+ Csv.crlf /\
  write_csv ["a" +:+ q +:+ "b" +:+ r] =
    "twitch_username" +:+ Csv.crlf
    +:+ q +:+ "a" +:+ q +:+ q +:+ "b" +:+ r +:+ q +:+ Csv.crlf.
Proof.
  cbv zeta. split.
  - apply (write_csv_plain_lines ["Alice"; "Bob"]);
      repeat constructor.
  - destruct (write_csv_plain_lines
                ["a" +:+ String Csv.dquote EmptyString +:+ "b"
                 +:+ String Csv.cr EmptyString]) as [-> _];
      [repeat constructor|reflexivity].
Defined.

(** C8, as stated, fails on a username with a comma, which is written
    between double quotes, and on one with a line feed, which is
    written between double quotes over two lines. *)
Lemma write_csv_quotes_special :
  let q := String Csv.dquote EmptyString in
  let nl := String Csv.lf EmptyString in
  write_csv ["a,b"] =
    "twitch_username" +:+ Csv.crlf +:+ q +:+ "a,b" +:+ q +:+ Csv.crlf /\
  spec_csv ["a,b"] = "twitch_username" +:+ Csv.crlf +:+ "a,b" +:+ Csv.crlf /\
  write_csv ["a,b"] <> spec_csv ["a,b"] /\
  write_csv ["a" +:+ nl +:+ "b"] =
    "twitch_username" +:+ Csv.crlf
    +:+ q +:+ "a" +:+ nl +:+ "b" +:+ q +:+ Csv.crlf /\
  write_csv ["a" +:+ nl +:+ "b"] <> spec_csv ["a" +:+ nl +:+ "b"].
Proof. vm_compute. split_and!; done. Qed.

(** C9: a success response of [/scrape] has the success flag set and a
    count equal to the length of its list of usernames. *)
Theorem scrape_success_count (inet : internet) (py_strip : string -> string)
    (rq : request_json) (w w' : world)
    (st : Z) (success : bool) (count : Z) (usernames : list string) :
  scrape inet py_strip rq w
    = (Response st (JsonSuccess success count usernames), w') ->
  success = true /\ count = Z.of_nat (length usernames) /\ st = 200.
Proof.
  unfold scrape. intros H.
  repeat case_match; simplify_eq; done.
Qed.

(** The first ten names of a site of 100, as a success response. *)
Lemma scrape_success_count_witness :
  let site := Sample.listing_site Sample.channel_row (Sample.names 1 100) in
  let names := Sample.names 1 10 in
  scrape site id (RequestJson (Got 1) (Got 10) Missing) empty_world
    = (Response 200 (JsonSuccess true 10 names),
       (scrape site id (RequestJson (Got 1) (Got 10) Missing) empty_world).2) /\
  (true = true /\ 10 = Z.of_nat (length names) /\ 200 = 200).
Proof.
  cbv zeta. split; [by vm_compute|].
  apply (scrape_success_count
           (Sample.listing_site Sample.channel_row (Sample.names 1 100)) id
           (RequestJson (Got 1) (Got 10) Missing) empty_world
           (scrape (Sample.listing_site Sample.channel_row (Sample.names 1 100))
                   id (RequestJson (Got 1) (Got 10) Missing) empty_world).2
           200 true 10 (Sample.names 1 10)).
  by vm_compute.
Defined.



(** * Further properties *)

(** X1: the range extractor is right on the first page: for a range that
    starts among the first 50 positions it returns exactly the items at
    the positions [start] to [end], clipped to the items there are. *)
Theorem range_extractor_from_first_page (inet : internet)
    (language : option string) (items : list string)
    (start end_ : Z) (w : world) :
  presents inet (range_base_url language) items ->
  1 <= start -> start <= 50 -> start <= end_ -> end_ <= 50 * 2 ^ 48 ->
  (scrape_usernames_range inet start end_ language w).1
    = Ok (items_between items start end_).
Proof.
  intros Hsite H1 H2 H3 H4.
  rewrite (scrape_usernames_range_eq inet start end_ language w _
             (calculate_pages_needed_eq start end_ ltac:(lia) ltac:(lia))).
  cbn [fst]. rewrite range_window_in_bounds by done.
  rewrite (range_loop_on_listing inet language items) by done. cbv zeta.
  assert (ceil_div start 50 = 1) as ->
    by (apply ceil_div_unique; lia).
  change (Z.to_nat 1 - 1)%nat with 0%nat.
  change (50 * 0)%nat with 0%nat. rewrite drop_0.
  rewrite items_between_first_pages; [done..|].
  pose proof (ceil_div_spec end_ 50 ltac:(lia)). lia.
Qed.

(** The names at the positions 45 to 55 of a listing of 100. *)
Lemma range_extractor_from_first_page_witness :
  (scrape_usernames_range
     (Sample.listing_site Sample.channel_row (Sample.names 1 100))
     45 55 None empty_world).1
  = Ok ["u45"; "u46"; "u47"; "u48"; "u49"; "u50"; "u51"; "u52"; "u53";
        "u54"; "u55"].
Proof.
  apply (range_extractor_from_first_page
           (Sample.listing_site Sample.channel_row (Sample.names 1 100))
           None (Sample.names 1 100) 45 55 empty_world
           sample_listing_presents);
    [lia|lia|lia|vm_compute; discriminate].
Defined.

(** X2: on a source that presents its items 50 per page, the running list
    of the range extractor is the items of the pages it computed, and
    what it returns is the window [start .. end] counted from the first
    item of the first page fetched, not from the first item of the
    source. *)
Theorem range_extractor_on_listing (inet : internet)
    (language : option string) (items : list string)
    (start end_ : Z) (w : world) :
  presents inet (range_base_url language) items ->
  1 <= start -> start <= end_ -> end_ <= 50 * 2 ^ 48 ->
  let first_page := Z.to_nat (ceil_div start 50) in
  let last_page := Z.to_nat (ceil_div end_ 50) in
  let got := take (50 * (last_page + 1 - first_page))
                  (drop (50 * (first_page - 1)) items) in
  (scrape_usernames_range inet start end_ language w).1
    = Ok (items_between got start end_).
Proof.
  intros Hsite H1 H2 H3. cbv zeta.
  rewrite (scrape_usernames_range_eq inet start end_ language w _
             (calculate_pages_needed_eq start end_ ltac:(lia) ltac:(lia))).
  cbn [fst]. rewrite range_window_in_bounds by done.
  by rewrite (range_loop_on_listing inet language items).
Qed.

(** The range (51, 60) on a listing of 100: the window is cut from the
    50 items of page 2, and is empty. *)
Lemma range_extractor_on_listing_witness :
  (scrape_usernames_range
     (Sample.listing_site Sample.channel_row (Sample.names 1 100))
     51 60 None empty_world).1
  = Ok (items_between (Sample.names 51 50) 51 60).
Proof.
  apply (range_extractor_on_listing
           (Sample.listing_site Sample.channel_row (Sample.names 1 100))
           None (Sample.names 1 100) 51 60 empty_world
           sample_listing_presents);
    [lia|lia|vm_compute; discriminate].
Defined.

(** X3: what the range extractor takes from a row, against the row rule
    of the specification: nothing from a row without qualifying
    hyperlink, and the username of the rule whenever that username is
    not yet in the running list.  The full extractor, too, takes
    nothing from a row without qualifying hyperlink. *)
Theorem row_rule_where_it_holds (r : row) (all_usernames seen : list string) :
  (spec_row_username r = None ->
     range_row (all_usernames, seen) r = (all_usernames, seen) /\
     forall page_usernames,
       full_row (all_usernames, page_usernames, seen) r
         = (all_usernames, page_usernames, seen)) /\
  (forall username,
     spec_row_username r = Some username -> username ∉ all_usernames ->
     (range_row (all_usernames, seen) r).1 = all_usernames ++ [username]).
Proof.
  unfold spec_row_username, range_row. cbn [fst snd]. split.
  - intros H. apply fmap_None in H. apply head_None in H. split.
    + by apply scan_links_none.
    + intros page_usernames. unfold full_row, find_a_href.
      destruct (find_all_a_href r) as [|link links]; [done|].
      cbn [head]. rewrite filter_cons in H.
      change (truthy (a_text link) && startswith (get_href link) "/")
        with (qualifies link).
      destruct (qualifies link); [|done].
      by rewrite decide_True in H by done.
  - intros username H Hnew. apply fmap_Some in H as (link & H & ->).
    apply head_Some in H as [rest H].
    by eapply scan_links_first.
Qed.


(** X5: the window of the range extractor: for a valid range it is the
    running list's elements at the positions [start] to [end], clipped
    to the list's length; so it never has more than [end - start + 1]
    elements, and it is empty when the running list has fewer than
    [start] elements. *)
Theorem range_window_exact (all_usernames : list string) (start end_ : Z) :
  1 <= start -> start <= end_ ->
  range_window all_usernames start end_
    = items_between all_usernames start end_ /\
  Z.of_nat (length (range_window all_usernames start end_))
    <= end_ - start + 1 /\
  (Z.of_nat (length all_usernames) < start ->
   range_window all_usernames start end_ = []).
Proof.
  intros H1 H2. rewrite range_window_in_bounds by done.
  unfold items_between. split_and!; [done| |].
  - rewrite length_take. lia.
  - intros Hshort. rewrite drop_ge by lia. by rewrite take_nil.
Qed.

(** The positions 2 to 5 of a list of three. *)
Lemma range_window_exact_witness :
  range_window ["a"; "b"; "c"] 2 5 = ["b"; "c"].
Proof.
  apply (range_window_exact ["a"; "b"; "c"] 2 5); lia.
Defined.

(** X6: the walk of the full extractor stops at a page that gives no new
    username, whatever its pagination says: that page is the last one
    requested. *)
Theorem walk_stops_without_new_names (inet : internet) (fuel : nat)
    (base_url : string) (page : Z) (usernames seen : list string)
    (w : world) (rows : list row) (pg : option pager) :
  page <= max_pages ->
  inet (length (fetched (log w))) (page_url base_url page)
    = Some (Soup (Some (Some rows)) pg) ->
  Forall (fun u => u ∈ usernames) (flat_map full_row_names rows) ->
  walk inet (S fuel) base_url page usernames seen w
    = Some (usernames, seen ++ flat_map full_row_names rows,
            World (log w ++ [Get (page_url base_url page)
                                 (Some (Soup (Some (Some rows)) pg))])
                  (fs w)).
Proof.
  intros Hpage Hans Hold. rewrite walk_unfold.
  destruct (Z.leb_spec page max_pages); [|lia].
  unfold http_get. rewrite Hans. cbn [table_channels].
  destruct (full_rows_eq rows usernames [] seen) as (news & E & Enews).
  assert (news = []) as ->.
  { assert (foldl add_new usernames (flat_map full_row_names rows)
            = usernames) as Hsame.
    { clear -Hold. induction Hold as [|u us Hu _ IH]; [done|].
      cbn [foldl]. unfold add_new.
      rewrite py_in_decide, bool_decide_eq_true_2 by done. exact IH. }
    rewrite Hsame in Enews. rewrite <- (app_nil_r usernames) in Enews at 2.
    by apply app_inv_head in Enews. }
  rewrite app_nil_r in E.
  destruct rows as [|r rows]; [by rewrite app_nil_r|].
  rewrite E. done.
Qed.

(** A site that repeats its page: asked for page 2 after page 1, the
    walk stops there. *)
Lemma walk_stops_without_new_names_witness :
  let page1 := [Get Sample.base (Sample.repeating_site 0%nat Sample.base);
                Sleep 1] in
  let rows := map Sample.plain_row (Sample.names 1 25) in
  walk Sample.repeating_site 99 Sample.base 2
       (Sample.names 1 25) (Sample.names 1 25) (World page1 ∅)
  = Some (Sample.names 1 25,
          Sample.names 1 25 ++ flat_map full_row_names rows,
          World (page1 ++
                 [Get (page_url Sample.base 2)
                      (Some (Soup (Some (Some rows))
                                  (Some (Pager (Some []) None))))]) ∅).
Proof.
  apply (walk_stops_without_new_names Sample.repeating_site 98
           Sample.base 2 (Sample.names 1 25) (Sample.names 1 25)
           (World [Get Sample.base (Sample.repeating_site 0%nat Sample.base);
                   Sleep 1] ∅)
           (map Sample.plain_row (Sample.names 1 25))
           (Some (Pager (Some []) None))).
  - vm_compute. discriminate.
  - reflexivity.
  - compute_done.
Defined.

(** The same site from the start: two requests, and the 25 names. *)
Example walk_on_repeating_site :
  (fun r => (length r.1, fetched (log r.2)))
    <$> scrape_usernames Sample.repeating_site Sample.base "out.csv"
          empty_world
  = Some (25%nat, [page_url Sample.base 1; page_url Sample.base 2]).
Proof. vm_compute. reflexivity. Qed.

(** X7: every username either extractor accumulates is non-empty. *)
Theorem usernames_nonempty (inet : internet) :
  (forall language pages w,
     Forall (fun u => truthy u = true)
            (range_loop inet language pages w).1.1) /\
  (forall base_url w,
     exists usernames seen w',
       walk inet (Z.to_nat max_pages) base_url 1 [] [] w
         = Some (usernames, seen, w') /\
       Forall (fun u => truthy u = true) usernames).
Proof.
  split.
  - intros language pages w. unfold range_loop.
    destruct (range_pages_run inet (range_base_url language) pages [] [] w)
      as (evs & -> & _).
    cbn [fst]. by apply range_rows_truthy.
  - intros base_url w.
    destruct (walk_run inet (Z.to_nat max_pages) base_url 1 [] [] w)
      as (evs & -> & _); [by vm_compute|].
    eexists _, _, _. split; [done|].
    apply Forall_forall. intros u Hu.
    apply elem_of_foldl_add_new in Hu as [Hu|Hu]; [by apply elem_of_nil in Hu|].
    apply list_elem_of_In, in_flat_map in Hu as (r & _ & Hu).
    apply list_elem_of_In in Hu.
    pose proof (full_row_names_truthy r) as Hr.
    rewrite Forall_forall in Hr. by apply Hr.
Qed.

(** * More properties of the code *)

(** ** The page list *)

Lemma range_NoDup (a b : Z) : NoDup (range a b).
Proof.
  unfold range. apply NoDup_fmap_2; [|apply NoDup_seq].
  intros i j H. lia.
Qed.

Lemma length_range (a b : Z) : length (range a b) = Z.to_nat (b - a).
Proof. unfold range. by rewrite length_map, length_seq. Qed.

(** X8: for a valid range up to [50 * 2 ^ 48] the page list covers the
    range and nothing else: every position of the range lies on a
    listed page (page [p] holds the positions [50 * (p - 1) + 1] to
    [50 * p]), every listed page holds a position of the range, no
    page is listed twice, and the list has
    [ceil (end / 50) - ceil (start / 50) + 1] pages, at most
    [(end - start) / 50 + 2]. *)
Theorem pages_cover_range (start end_ : Z) :
  1 <= start -> start <= end_ -> end_ <= 50 * 2 ^ 48 ->
  exists pages,
    calculate_pages_needed start end_ = Ok pages /\
    (forall i, start <= i <= end_ ->
       exists p, p ∈ pages /\ 50 * (p - 1) < i <= 50 * p) /\
    (forall p, p ∈ pages ->
       exists i, start <= i <= end_ /\ 50 * (p - 1) < i <= 50 * p) /\
    NoDup pages /\
    Z.of_nat (length pages) = ceil_div end_ 50 - ceil_div start 50 + 1 /\
    1 <= Z.of_nat (length pages) <= (end_ - start) / 50 + 2.
Proof.
  intros H1 H2 H3. eexists. split.
  { apply calculate_pages_needed_eq; lia. }
  pose proof (ceil_div_spec start 50 ltac:(lia)) as Hs.
  pose proof (ceil_div_spec end_ 50 ltac:(lia)) as He.
  pose proof (ceil_div_50_mono start end_ H2) as Hmono.
  split_and!.
  - intros i Hi. exists (ceil_div i 50). split.
    + apply elem_of_range.
      pose proof (ceil_div_50_mono start i ltac:(lia)).
      pose proof (ceil_div_50_mono i end_ ltac:(lia)). lia.
    + apply ceil_div_spec. lia.
  - intros p Hp. apply elem_of_range in Hp.
    exists (Z.max start (50 * (p - 1) + 1)). lia.
  - apply range_NoDup.
  - rewrite length_range. lia.
  - rewrite length_range. lia.
  - rewrite length_range.
    pose proof (Z.div_mod (end_ - start) 50 ltac:(lia)).
    pose proof (Z.mod_pos_bound (end_ - start) 50 ltac:(lia)). lia.
Qed.

(** The range (1, 150): pages 1, 2 and 3. *)
Lemma pages_cover_range_witness :
  exists pages,
    calculate_pages_needed 1 150 = Ok pages /\
    (forall i, 1 <= i <= 150 ->
       exists p, p ∈ pages /\ 50 * (p - 1) < i <= 50 * p) /\
    (forall p, p ∈ pages ->
       exists i, 1 <= i <= 150 /\ 50 * (p - 1) < i <= 50 * p) /\
    NoDup pages /\
    Z.of_nat (length pages) = ceil_div 150 50 - ceil_div 1 50 + 1 /\
    1 <= Z.of_nat (length pages) <= (150 - 1) / 50 + 2.
Proof.
  apply (pages_cover_range 1 150); [lia|lia|vm_compute; discriminate].
Defined.

(** ** The requests of the range extractor *)

Lemma range_loop_events (inet : internet) (language : option string)
    (pages_needed : list Z) (w : world) :
  exists evs,
    (range_loop inet language pages_needed w).2
      = World (log w ++ evs) (fs w) /\
    fetched evs = map (page_url (range_base_url language)) pages_needed.
Proof.
  unfold range_loop.
  destruct (range_pages_run inet (range_base_url language) pages_needed
              [] [] w) as (evs & -> & Hf & _).
  by exists evs.
Qed.



(** ** The trace of the full extractor *)

Lemma walk_events inet fuel base page us seen w r :
  walk inet fuel base page us seen w = Some r ->
  exists evs,
    r.2 = World (log w ++ evs) (fs w) /\
    spaced evs = true /\
    (page <= max_pages -> evs <> []).
Proof.
  revert page us seen w.
  induction fuel as [|fuel IH]; intros page us seen w H;
    rewrite walk_unfold in H.
  - destruct (Z.leb_spec page max_pages); [done|]. simplify_eq.
    exists []. destruct w. cbn. rewrite app_nil_r. split_and!; [done..|lia].
  - destruct (Z.leb_spec page max_pages).
    2: { simplify_eq. exists []. destruct w. cbn. rewrite app_nil_r.
         split_and!; [done..|lia]. }
    unfold http_get in H. cbn [log fs] in H.
    set (url := page_url base page) in *.
    set (answer := inet (length (fetched (log w))) url) in *.
    assert (Hstop : forall us' seen' : list string,
      exists evs,
        (us', seen', World (log w ++ [Get url answer]) (fs w)).2
          = World (log w ++ evs) (fs w) /\
        spaced evs = true /\ (page <= max_pages -> evs <> [])).
    { intros. by exists [Get url answer]. }
    repeat case_match; simplify_eq; try apply Hstop.
    apply IH in H as (evs & -> & Hsp & _).
    eexists (_ :: Sleep 1 :: evs). unfold sleep. cbn [log fs].
    rewrite <- !app_assoc. split_and!; [reflexivity| |done].
    cbn [spaced]. by rewrite Hsp.
Qed.

Lemma spaced_delays (evs : list event) :
  spaced evs = true ->
  exists n, delays evs = replicate n 1 /\
    (length (fetched evs) - 1 <= n <= length (fetched evs))%nat.
Proof.
  induction evs as [evs IH] using (induction_ltof1 _ (@length event)).
  unfold ltof in IH. destruct evs as [|[url a|s] [|[url' a'|s'] evs]];
    cbn [spaced]; try done.
  - intros _. exists 0%nat. cbn. split; [done|lia].
  - intros _. exists 0%nat. cbn. split; [done|lia].
  - intros [->%Z.eqb_eq Hsp]%andb_true_iff.
    destruct (IH evs ltac:(cbn; lia) Hsp) as (n & Hd & Hn).
    exists (S n). cbn [delays fetched omap list_omap] in *.
    fold (delays evs). fold (fetched evs). rewrite Hd. cbn [replicate].
    split; [done|]. cbn [length]. lia.
Qed.

(** X10: the full extractor always makes at least one request and at
    most 100; it requests the pages 1, 2, ..., [k] in this order, each
    once and no URL twice; its trace is a request, then a delay of 1
    and a request any number of times, and possibly a last delay, so
    there is exactly one delay of 1 between two consecutive
    requests. *)
Theorem full_extractor_trace (inet : internet)
    (base_url output_file : string) (w : world) :
  exists usernames evs k,
    scrape_usernames inet base_url output_file w
      = Some (usernames,
              World (log w ++ evs)
                    (<[output_file := write_csv usernames]> (fs w))) /\
    (1 <= k <= 100)%nat /\
    fetched evs = map (fun i => page_url base_url (Z.of_nat i)) (seq 1 k) /\
    NoDup (fetched evs) /\
    spaced evs = true /\
    exists n, delays evs = replicate n 1 /\ (k - 1 <= n <= k)%nat.
Proof.
  unfold scrape_usernames.
  destruct (walk_run inet (Z.to_nat max_pages) base_url 1 [] [] w)
    as (evs & E & Hlen & Hf); [by vm_compute|].
  destruct (walk_events _ _ _ _ _ _ _ _ E) as (evs' & E' & Hsp & Hne).
  cbn [snd] in E'. injection E' as E'. apply app_inv_head in E'. subst evs'.
  rewrite E. cbn [write_file log fs].
  eexists _, evs, (length (fetched evs)).
  assert (Hurls : fetched evs
    = map (fun i => page_url base_url (Z.of_nat i))
          (seq 1 (length (fetched evs)))).
  { rewrite Hf at 1. rewrite <- seq_shift, map_map.
    apply map_ext. intros i. f_equal. lia. }
  destruct (spaced_delays evs Hsp) as (n & Hd & Hn).
  split_and!; [done| | |done| |done|].
  - destruct evs as [|[url a|s] evs]; cbn; [|lia|done].
    by specialize (Hne ltac:(by vm_compute)).
  - change (0 `max` (max_pages + 1 - 1)) with 100 in Hlen. lia.
  - rewrite Hurls. apply NoDup_fmap_2; [|apply NoDup_seq].
    intros i j Hij. apply page_url_inj in Hij. lia.
  - by exists n.
Qed.

(** ** Where the usernames come from *)

(** X11: what the range extractor accumulates and returns comes from
    the pages: every username of the running list, and so of the
    returned window, is the text of a qualifying hyperlink of a row
    received; and the username that the row rule gives for a row
    received is always in the running list. *)
Theorem range_extractor_names (inet : internet) (language : option string)
    (pages_needed : list Z) (w : world) :
  exists all_usernames seen evs,
    range_loop inet language pages_needed w
      = (all_usernames, seen, World (log w ++ evs) (fs w)) /\
    (forall u, u ∈ all_usernames ->
       exists r a, r ∈ rows_received evs /\ a ∈ find_all_a_href r /\
                   qualifies a = true /\ a_text a = u) /\
    (forall start end_ u,
       u ∈ range_window all_usernames start end_ -> u ∈ all_usernames) /\
    (forall r u, r ∈ rows_received evs -> spec_row_username r = Some u ->
       u ∈ all_usernames).
Proof.
  unfold range_loop.
  destruct (range_pages_run inet (range_base_url language) pages_needed
              [] [] w) as (evs & -> & _).
  eexists _, _, evs. split; [done|]. split_and!.
  - intros u Hu. apply range_rows_sound in Hu as [Hu|Hu]; [|done].
    by apply elem_of_nil in Hu.
  - intros start end_ u Hu.
    eapply elem_of_sublist; [exact Hu|apply range_window_sublist].
  - intros r u Hr Hu. by eapply range_rows_complete.
Qed.

(** X12: the usernames the full extractor returns are exactly the texts
    of the first hyperlinks with a target of the rows received, where
    that hyperlink qualifies. *)
Theorem full_extractor_names (inet : internet)
    (base_url output_file : string) (w : world) :
  exists usernames evs w',
    scrape_usernames inet base_url output_file w = Some (usernames, w') /\
    log w' = log w ++ evs /\
    forall u, u ∈ usernames <->
      exists r link, r ∈ rows_received evs /\ find_a_href r = Some link /\
                     qualifies link = true /\ a_text link = u.
Proof.
  unfold scrape_usernames.
  destruct (walk_run inet (Z.to_nat max_pages) base_url 1 [] [] w)
    as (evs & -> & _); [by vm_compute|].
  eexists _, evs, _. split; [done|]. split; [done|]. intros u.
  rewrite elem_of_foldl_add_new, elem_of_nil, list_elem_of_In, in_flat_map.
  split.
  - intros [[]|(r & Hr & Hu)]. apply list_elem_of_In in Hr, Hu.
    unfold full_row_names in Hu.
    destruct (find_a_href r) as [link|] eqn:Hlink;
      [|by apply elem_of_nil in Hu].
    change (truthy (a_text link) && startswith (get_href link) "/")
      with (qualifies link) in Hu.
    destruct (qualifies link) eqn:Hq; [|by apply elem_of_nil in Hu].
    apply list_elem_of_singleton in Hu as ->. by exists r, link.
  - intros (r & link & Hr & Hlink & Hq & <-). right. exists r.
    split; [by apply list_elem_of_In|]. apply list_elem_of_In.
    unfold full_row_names. rewrite Hlink.
    change (truthy (a_text link) && startswith (get_href link) "/")
      with (qualifies link). rewrite Hq. left.
Qed.

(** ** The full extractor on a source that presents its items *)

Lemma offers_next_goes_on (s : soup) (page_usernames : list string) :
  offers_next s = true -> (25 <= length page_usernames)%nat ->
  goes_on s page_usernames = true.
Proof.
  unfold offers_next, goes_on, next_button. intros H Hlen.
  destruct (ul_pagination s) as [pagination|].
  - by destruct (a_next pagination), (li_next pagination).
  - apply negb_true_iff, Z.ltb_ge. lia.
Qed.

Lemma shows_first_link (r : row) (name : string) :
  shows r name -> first_link_qualifies r = true ->
  full_row_names r = [name].
Proof.
  unfold shows, first_link_qualifies, full_row_names, find_a_href.
  intros Hshows Hfirst.
  destruct (find_all_a_href r) as [|link links]; [done|].
  cbn [head] in *. rewrite filter_cons, decide_True in Hshows by done.
  change (truthy (a_text link) && startswith (get_href link) "/")
    with (qualifies link). rewrite Hfirst.
  cbn [fmap list_fmap] in Hshows. by injection Hshows as -> _.
Qed.

Lemma full_names_of_rows (rows : list row) (names : list string) :
  Forall2 shows rows names ->
  Forall (fun r => first_link_qualifies r = true) rows ->
  flat_map full_row_names rows = names.
Proof.
  induction 1 as [|r name rows names Hr _ IH]; intros Hfirst; [done|].
  apply Forall_cons in Hfirst as [Hr1 Hrows].
  cbn [flat_map]. by rewrite (shows_first_link r name Hr Hr1), IH.
Qed.

Lemma take_page_items (items : list string) (p : nat) :
  (1 <= p)%nat ->
  take (50 * (p - 1)) items ++ page_items items p = take (50 * p) items.
Proof.
  intros Hp. unfold page_items.
  replace (50 * p)%nat with (50 * (p - 1) + 50)%nat by lia.
  by rewrite take_take_drop.
Qed.

Lemma page_items_nil (items : list string) (p : nat) :
  page_items items p = [] -> (length items <= 50 * (p - 1))%nat.
Proof.
  unfold page_items. intros H. apply (f_equal length) in H.
  rewrite length_take, length_drop in H. cbn [length] in H. lia.
Qed.

Section FullOnListing.

Variable inet : internet.
Variable base_url : string.
Variable items : list string.
Hypothesis Hsite : presents inet base_url items.
Hypothesis Hfirst : forall (n p : nat) (r : row),
  r ∈ rows_of_answer (inet n (page_url base_url (Z.of_nat p))) ->
  first_link_qualifies r = true.
Hypothesis Hnext : forall (n p : nat) (s : soup),
  (1 <= p)%nat -> (50 * p < length items)%nat ->
  inet n (page_url base_url (Z.of_nat p)) = Some s ->
  offers_next s = true.

Lemma walk_on_listing (fuel p : nat) (seen : list string) (w : world)
    (r : list string * list string * world) :
  (1 <= p <= 101)%nat ->
  walk inet fuel base_url (Z.of_nat p) (take (50 * (p - 1)) items) seen w
    = Some r ->
  r.1.1 = take 5000 items.
Proof.
  revert p seen w r.
  induction fuel as [|fuel IH]; intros p seen w r Hp H;
    rewrite walk_unfold in H;
    destruct (Z.leb_spec (Z.of_nat p) max_pages) as [Hle|Hgt].
  - done.
  - simplify_eq. cbn [fst]. f_equal. unfold max_pages in Hgt. lia.
  - unfold max_pages in Hle. unfold http_get in H. cbn [log fs] in H.
    set (n := length (fetched (log w))) in *.
    set (url := page_url base_url (Z.of_nat p)) in *.
    destruct Hsite as [Hnodup Hpages].
    pose proof (Hpages n p ltac:(lia)) as Hrows. fold url in Hrows.
    pose proof (Hfirst n p) as Hfirst'. fold url in Hfirst'.
    pose proof (Hnext n p) as Hnext'. fold url in Hnext'.
    assert (Hlast : page_items items p = [] ->
                    take (50 * (p - 1)) items = take 5000 items).
    { intros Hnil%page_items_nil. by rewrite !take_ge by lia. }
    destruct (inet n url) as [[[[rows|]|] pg]|] eqn:Hans;
      cbn [rows_of_answer table_channels] in *.
    2-4: apply Forall2_nil_inv_l in Hrows; simplify_eq; cbn [fst];
         by apply Hlast.
    destruct rows as [|r0 rows].
    { apply Forall2_nil_inv_l in Hrows. simplify_eq. cbn [fst].
      by apply Hlast. }
    destruct (full_rows_eq (r0 :: rows) (take (50 * (p - 1)) items) [] seen)
      as (news & E & Enews).
    rewrite E in H. clear E.
    rewrite (full_names_of_rows _ _ Hrows) in Enews
      by (by apply Forall_forall).
    assert (Hpage : NoDup (take (50 * (p - 1)) items ++ page_items items p)).
    { rewrite take_page_items by lia.
      eapply sublist_NoDup; [exact Hnodup|apply sublist_take]. }
    rewrite foldl_add_new_fresh in Enews by done.
    apply app_inv_head in Enews. subst news.
    rewrite take_page_items in H by lia. cbn [app] in H.
    assert (Hlen : length (page_items items p) = length (r0 :: rows))
      by (symmetry; by eapply Forall2_length).
    destruct (page_items items p) as [|name names] eqn:Hitems; [done|].
    destruct (goes_on _ _) eqn:Hgo.
    + replace (Z.of_nat p + 1) with (Z.of_nat (S p)) in H by lia.
      replace (50 * p)%nat with (50 * (S p - 1))%nat in H by lia.
      by apply IH in H; [|lia].
    + simplify_eq. cbn [fst].
      destruct (decide (50 * p < length items)%nat) as [Hmore|Hdone].
      * rewrite offers_next_goes_on in Hgo; [done|apply Hnext'; [lia|done|done]|].
        rewrite <- Hitems. unfold page_items.
        rewrite length_take, length_drop. lia.
      * by rewrite !take_ge by lia.
  - simplify_eq. cbn [fst]. f_equal. unfold max_pages in Hgt. lia.
Qed.

End FullOnListing.

Lemma shows_plain_row (name : string) :
  truthy name = true ->
  shows (Sample.plain_row name) name /\
  first_link_qualifies (Sample.plain_row name) = true.
Proof.
  intros H.
  assert (Hq : qualifies (Anchor (Some ("/" +:+ name)) name) = true).
  { unfold qualifies. cbn [a_text get_href a_href default].
    rewrite H. by destruct name. }
  unfold shows, first_link_qualifies, find_a_href, Sample.plain_row,
    find_all_a_href.
  rewrite filter_cons, filter_nil. cbn [a_href].
  rewrite decide_True by (by eexists).
  rewrite filter_cons, filter_nil, decide_True by done.
  done.
Qed.

Lemma plain_listing_site (items : list string) :
  NoDup items -> Forall (fun u => truthy u = true) items ->
  presents (Sample.listing_site Sample.plain_row items) Sample.base items /\
  (forall (n p : nat) (r : row),
     r ∈ rows_of_answer
           (Sample.listing_site Sample.plain_row items n
              (page_url Sample.base (Z.of_nat p))) ->
     first_link_qualifies r = true) /\
  (forall (n p : nat) (s : soup),
     (1 <= p)%nat -> (50 * p < length items)%nat ->
     Sample.listing_site Sample.plain_row items n
       (page_url Sample.base (Z.of_nat p)) = Some s ->
     offers_next s = true).
Proof.
  intros Hnodup Hnames.
  assert (Hpage : forall p, Forall (fun u => truthy u = true)
                                   (page_items items p)).
  { intros p. unfold page_items. by apply Forall_take, Forall_drop. }
  split_and!.
  - split; [done|]. intros n p Hp. unfold Sample.listing_site.
    destruct (list_find _ _) as [[i p']|] eqn:Hfind.
    + apply list_find_Some in Hfind as (_ & Hurl & _).
      apply page_url_inj in Hurl. assert (p' = p) as -> by lia.
      cbn [rows_of_answer]. apply Forall2_fmap_l, Forall_Forall2_diag.
      eapply Forall_impl; [apply Hpage|].
      intros u Hu. by apply shows_plain_row.
    + cbn [rows_of_answer].
      assert (length items < p)%nat as Hlen.
      { apply list_find_None in Hfind.
        destruct (decide (p <= length items)%nat) as [Hle|]; [|lia].
        exfalso. rewrite Forall_forall in Hfind.
        apply (Hfind p); [|done]. apply elem_of_seq. lia. }
      unfold page_items. rewrite drop_ge by lia. constructor.
  - intros n p r. unfold Sample.listing_site.
    destruct (list_find _ _) as [[i p']|]; cbn [rows_of_answer];
      [|by intros ?%elem_of_nil].
    intros (u & -> & Hu)%list_elem_of_fmap.
    apply shows_plain_row. specialize (Hpage p').
    rewrite Forall_forall in Hpage. by apply Hpage.
  - intros n p s _ _. unfold Sample.listing_site.
    destruct (list_find _ _) as [[i p']|]; [|done].
    by intros [= <-].
Qed.



(** ** Reading the CSV back *)

Lemma put_cons (c : ascii) (field : string) (rows : option (list string)) :
  put c (cons field <$> rows) = cons (String c field) <$> rows.
Proof. by destruct rows. Qed.

Lemma read_plain (u rest : string) :
  Csv.has_special u = false ->
  read_rows InPlain (u +:+ Csv.crlf +:+ rest)
    = cons u <$> read_rows AtStart rest.
Proof.
  induction u as [|c u IH]; intros Hu.
  - reflexivity.
  - cbn [Csv.has_special] in Hu. apply orb_false_iff in Hu as [Hc Hu].
    change (String c u +:+ Csv.crlf +:+ rest)
      with (String c (u +:+ Csv.crlf +:+ rest)).
    cbn [read_rows].
    assert (Ascii.eqb c Csv.cr = false) as ->.
    { unfold Csv.special in Hc. by repeat apply orb_false_iff in Hc as [Hc ?]. }
    by rewrite IH, put_cons.
Qed.

Lemma read_quoted (u rest : string) :
  read_rows InQuoted
    (Csv.double_quotes u +:+ String Csv.dquote EmptyString
     +:+ Csv.crlf +:+ rest)
  = cons u <$> read_rows AtStart rest.
Proof.
  induction u as [|c u IH].
  - reflexivity.
  - cbn [Csv.double_quotes]. destruct (Ascii.eqb c Csv.dquote) eqn:Hc.
    + apply Ascii.eqb_eq in Hc as ->.
      change (read_rows AfterQuote
                (String Csv.dquote
                   (Csv.double_quotes u +:+ String Csv.dquote EmptyString
                    +:+ Csv.crlf +:+ rest))
              = cons (String Csv.dquote u) <$> read_rows AtStart rest).
      cbn [read_rows]. rewrite Ascii.eqb_refl. by rewrite IH, put_cons.
    + change (read_rows InQuoted
                (String c
                   (Csv.double_quotes u +:+ String Csv.dquote EmptyString
                    +:+ Csv.crlf +:+ rest))
              = cons (String c u) <$> read_rows AtStart rest).
      cbn [read_rows]. rewrite Hc. by rewrite IH, put_cons.
Qed.

Lemma read_writerow (u rest : string) :
  read_rows AtStart (Csv.writerow [u] +:+ rest)
    = cons u <$> read_rows AtStart rest.
Proof.
  unfold Csv.writerow, Csv.field. cbn [length Nat.eqb map String.concat andb].
  rewrite string_app_assoc.
  destruct (Csv.has_special u) eqn:Hs; cbn [orb].
  - unfold Csv.quoted.
    change (read_rows InQuoted
              ((Csv.double_quotes u +:+ String Csv.dquote EmptyString)
               +:+ Csv.crlf +:+ rest)
            = cons u <$> read_rows AtStart rest).
    rewrite string_app_assoc. apply read_quoted.
  - destruct u as [|c u]; [reflexivity|].
    cbn [String.eqb]. pose proof Hs as Hs'.
    cbn [Csv.has_special] in Hs'. apply orb_false_iff in Hs' as [Hc _].
    unfold Csv.special in Hc.
    repeat apply orb_false_iff in Hc as [Hc ?].
    rewrite <- (read_plain (String c u) rest Hs).
    change (String c u +:+ Csv.crlf +:+ rest)
      with (String c (u +:+ Csv.crlf +:+ rest)).
    cbn [read_rows].
    by replace (Ascii.eqb c Csv.dquote) with false.
Qed.

Lemma read_writerows (usernames : list string) :
  read_rows AtStart
    (String.concat "" (map (fun u => Csv.writerow [u]) usernames))
  = Some usernames.
Proof.
  induction usernames as [|u us IH]; [reflexivity|].
  cbn [map String.concat].
  destruct (map (fun u => Csv.writerow [u]) us) as [|row rows] eqn:E.
  - destruct us; [|done].
    rewrite <- (string_app_nil_r (Csv.writerow [u])). by rewrite read_writerow.
  - change ("" +:+ ?x) with x. by rewrite read_writerow, IH.
Qed.

Lemma read_csv_write_csv (usernames : list string) :
  read_csv (write_csv usernames) = Some usernames.
Proof.
  unfold read_csv. rewrite write_csv_rows.
  by rewrite read_writerow, read_writerows.
Qed.

(** X14: the CSV text loses nothing: whatever characters the usernames
    hold, commas, double quotes and line breaks included, two lists of
    usernames have the same CSV text only if they are the same list. *)
Theorem write_csv_injective (usernames others : list string) :
  write_csv usernames = write_csv others <-> usernames = others.
Proof.
  split; [|by intros ->].
  intros H. apply (f_equal read_csv) in H.
  rewrite !read_csv_write_csv in H. by injection H.
Qed.

(** ** The two handlers *)

Lemma scrape_usernames_range_world (inet : internet) (start end_ : Z)
    (language : option string) (w : world) :
  exists evs,
    (scrape_usernames_range inet start end_ language w).2
      = World (log w ++ evs) (fs w).
Proof.
  unfold scrape_usernames_range.
  destruct (calculate_pages_needed start end_) as [pages|e].
  - destruct (range_loop_events inet language pages w) as (evs & E & _).
    exists evs. by destruct (range_loop inet language pages w) as [[? ?] ?].
  - exists []. destruct w. cbn. by rewrite app_nil_r.
Qed.

Lemma call_world (inet : internet) (start end_ : Z)
    (language : option jstr) (w : world) :
  exists evs,
    (call_scrape_usernames_range inet start end_ language w).2
      = World (log w ++ evs) (fs w).
Proof.
  assert (Hsame : exists evs, w = World (log w ++ evs) (fs w)).
  { exists []. destruct w. cbn. by rewrite app_nil_r. }
  destruct (scrape_usernames_range_world inet start end_
              (language ≫= text_of) w) as (evs & E).
  unfold call_scrape_usernames_range.
  destruct language as [[l|error]|].
  2: { by destruct (calculate_pages_needed start end_). }
  all: destruct (scrape_usernames_range _ _ _ _ _) as [[us|e] w1];
    by exists evs.
Qed.

Lemma range_loop_NoDup (inet : internet) (language : option string)
    (pages_needed : list Z) (w : world) :
  NoDup (range_loop inet language pages_needed w).1.1.
Proof.
  unfold range_loop.
  destruct (range_pages_run inet (range_base_url language) pages_needed
              [] [] w) as (evs & -> & _).
  cbn [fst].
  destruct (range_rows_extends (rows_received evs) [] []) as [extra ->].
  apply first_seen_NoDup.
Qed.

Lemma range_loop_truthy (inet : internet) (language : option string)
    (pages_needed : list Z) (w : world) :
  Forall (fun u => truthy u = true)
         (range_loop inet language pages_needed w).1.1.
Proof.
  unfold range_loop.
  destruct (range_pages_run inet (range_base_url language) pages_needed
              [] [] w) as (evs & -> & _).
  cbn [fst]. by apply range_rows_truthy.
Qed.




(** A valid range with a language that holds a lone surrogate is
    answered with status 500, without any request to the site. *)
Example surrogate_language_answered_500 :
  forall error : string,
    scrape Sample.offline id
      (RequestJson (Got 1) (Got 50) (Got (Surrogate error))) empty_world
    = (Response 500 (JsonError error), empty_world).
Proof. done. Qed.

(** X17: a success payload of [/scrape] comes from a request whose
    reads returned a valid range, and holds at most [end - start + 1]
    usernames, none twice and none empty. *)
Theorem scrape_payload_bounded (inet : internet)
    (py_strip : string -> string) (rq : request_json) (w w' : world)
    (st : Z) (success : bool) (count : Z) (usernames : list string) :
  scrape inet py_strip rq w
    = (Response st (JsonSuccess success count usernames), w') ->
  exists start end_ language,
    read_request py_strip rq = Done (start, end_, language) /\
    1 <= start <= end_ /\
    count <= end_ - start + 1 /\
    NoDup usernames /\
    Forall (fun u => truthy u = true) usernames.
Proof.
  unfold scrape. intros H.
  destruct (read_request py_strip rq) as [[[start end_] language]|message];
    [|done].
  exists start, end_, language. split; [done|].
  destruct ((start <? 1) || (end_ <? start)) eqn:Hv; [done|].
  apply orb_false_iff in Hv as [Hv1 Hv2]. apply Z.ltb_ge in Hv1, Hv2.
  destruct (call_scrape_usernames_range _ _ _ _ _) as [[us|e] w1] eqn:Hcall;
    [|done].
  apply call_done in Hcall. injection H as <- <- <- <- <-.
  unfold scrape_usernames_range in Hcall.
  destruct (calculate_pages_needed _ _) as [pages|e]; [|done].
  pose proof (range_loop_NoDup inet (language ≫= text_of) pages w) as Hnd.
  pose proof (range_loop_truthy inet (language ≫= text_of) pages w) as Ht.
  destruct (range_loop _ _ _ _) as [[all seen] w2]. cbn [fst] in Hnd, Ht.
  injection Hcall as <- <-.
  pose proof (range_window_sublist all start end_) as Hsub.
  split_and!; [done..| | |].
  - rewrite range_window_in_bounds by done. unfold items_between.
    rewrite length_take. lia.
  - by eapply sublist_NoDup.
  - rewrite Forall_forall in Ht |- *. intros u Hu. apply Ht.
    by eapply elem_of_sublist.
Qed.

(** The range (45, 55) on a listing of 100: eleven names. *)
Lemma scrape_payload_bounded_witness :
  11 <= 55 - 45 + 1 /\
  NoDup (Sample.names 45 11).
Proof.
  destruct (scrape_payload_bounded
    (Sample.listing_site Sample.channel_row (Sample.names 1 100)) id
    (RequestJson (Got 45) (Got 55) Missing) empty_world
    (scrape (Sample.listing_site Sample.channel_row (Sample.names 1 100)) id
            (RequestJson (Got 45) (Got 55) Missing) empty_world).2
    200 true 11 (Sample.names 45 11)
    ltac:(vm_compute; reflexivity))
    as (start & end_ & language & E & _ & Hc & Hnd & _).
  injection E as <- <- _.
  split; [exact Hc|exact Hnd].
Defined.

(** ** Where the division overflows *)

Lemma round_half_even_ge (n d k : Z) :
  0 < d -> k * d <= n -> k <= round_half_even n d.
Proof. intros Hd H. pose proof (round_half_even_near n d Hd). nia. Qed.

Lemma round_half_even_le (n d k : Z) :
  0 < d -> n <= k * d -> round_half_even n d <= k.
Proof. intros Hd H. pose proof (round_half_even_near n d Hd). nia. Qed.

Lemma round_half_even_below_half (n d k : Z) :
  0 < d -> 2 * n < (2 * k + 1) * d -> round_half_even n d <= k.
Proof. intros Hd H. pose proof (round_half_even_near n d Hd). nia. Qed.

Lemma round_half_even_from_half (n d k : Z) :
  0 < d -> Z.odd k = true -> (2 * k + 1) * d <= 2 * n ->
  k + 1 <= round_half_even n d.
Proof.
  intros Hd Hk H. unfold round_half_even.
  pose proof (Z.div_mod n d ltac:(lia)) as Hn.
  pose proof (Z.mod_pos_bound n d Hd) as Hr.
  destruct (Z.ltb_spec (2 * (n mod d)) d); [nia|].
  destruct (Z.ltb_spec d (2 * (n mod d))); [nia|].
  destruct (Z.even (n / d)) eqn:He; [|nia].
  assert (k <> n / d).
  { intros ->. rewrite <- Z.negb_even, He in Hk. done. }
  nia.
Qed.

Lemma quot_log2_spec (a b : Z) :
  0 < a -> 0 < b ->
  scaled_den b (quot_log2 a b) <= scaled_num a (quot_log2 a b) /\
  scaled_num a (quot_log2 a b + 1) < scaled_den b (quot_log2 a b + 1).
Proof.
  intros Ha Hb.
  pose proof (Z.log2_spec a Ha) as HA. pose proof (Z.log2_spec b Hb) as HB.
  pose proof (Z.log2_nonneg a) as HAn. pose proof (Z.log2_nonneg b) as HBn.
  unfold quot_log2. set (la := Z.log2 a) in *. set (lb := Z.log2 b) in *.
  assert (Hpos : forall e, 0 < 2 ^ Z.max 0 e).
  { intros e. apply Z.pow_pos_nonneg; lia. }
  destruct (Z.leb_spec (scaled_den b (la - lb)) (scaled_num a (la - lb)))
    as [Hle|Hgt].
  - split; [done|]. unfold scaled_num, scaled_den.
    destruct (Z.le_gt_cases 0 (la - lb + 1)).
    + rewrite (Z.max_l 0 (- _)), (Z.max_r 0 (la - lb + 1)) by lia.
      assert (2 ^ Z.succ la = 2 ^ lb * 2 ^ (la - lb + 1)) as E
        by (rewrite <- Z.pow_add_r by lia; f_equal; lia).
      pose proof (Hpos (la - lb + 1)). rewrite Z.max_r in H0 by lia.
      cbn [Z.pow Z.pow_pos Pos.iter]. nia.
    + rewrite (Z.max_r 0 (- _)), (Z.max_l 0 (la - lb + 1)) by lia.
      assert (2 ^ Z.succ la * 2 ^ (- (la - lb + 1)) = 2 ^ lb) as E
        by (rewrite <- Z.pow_add_r by lia; f_equal; lia).
      pose proof (Hpos (- (la - lb + 1))). rewrite Z.max_r in H0 by lia.
      change (2 ^ 0) with 1. nia.
  - replace (la - lb - 1 + 1) with (la - lb) by lia. split; [|done].
    unfold scaled_num, scaled_den.
    destruct (Z.le_gt_cases 0 (la - lb - 1)).
    + rewrite (Z.max_l 0 (- _)), (Z.max_r 0 (la - lb - 1)) by lia.
      assert (2 ^ Z.succ lb * 2 ^ (la - lb - 1) = 2 ^ la) as E
        by (rewrite <- Z.pow_add_r by lia; f_equal; lia).
      pose proof (Hpos (la - lb - 1)). rewrite Z.max_r in H0 by lia.
      change (2 ^ 0) with 1. nia.
    + rewrite (Z.max_r 0 (- _)), (Z.max_l 0 (la - lb - 1)) by lia.
      assert (2 ^ Z.succ lb = 2 ^ la * 2 ^ (- (la - lb - 1))) as E
        by (rewrite <- Z.pow_add_r by lia; f_equal; lia).
      pose proof (Hpos (- (la - lb - 1))). rewrite Z.max_r in H0 by lia.
      change (2 ^ 0) with 1. nia.
Qed.

Lemma quot_log2_50_lower (a : Z) : 1 <= a -> - 6 <= quot_log2 a 50.
Proof.
  intros Ha. unfold quot_log2. change (Z.log2 50) with 5.
  pose proof (Z.log2_nonneg a). case_match; lia.
Qed.

Lemma truediv_50_overflow (a : Z) :
  1 <= a ->
  (overflow_from <= a -> truediv a 50 = Raise OverflowError) /\
  (a < overflow_from -> exists x, truediv a 50 = Ok x).
Proof.
  intros Ha.
  destruct (quot_log2_spec a 50) as [Hlo Hhi]; [lia..|].
  pose proof (quot_log2_50_lower a Ha) as Hq6.
  unfold truediv. change (50 =? 0) with false. cbv iota.
  destruct (Z.eqb_spec a 0) as [|_]; [lia|].
  rewrite (Z.abs_eq a) by lia. change (Z.abs 50) with 50.
  unfold truediv_pos, overflow_from.
  set (q := quot_log2 a 50) in *.
  rewrite (Z.max_l (q - 52)) by lia.
  set (m := round_half_even (scaled_num a (q - 52)) (scaled_den 50 (q - 52))).
  set (P := 2 ^ 970).
  assert (HP : 0 < P) by (by apply Z.pow_pos_nonneg).
  assert (E1024 : 2 ^ 1024 = 2 ^ 54 * P) by (by vm_compute).
  assert (E1023 : 2 ^ 1023 = 2 ^ 53 * P) by (by vm_compute).
  assert (E971 : 2 ^ 971 = 2 * P) by (by vm_compute).
  assert (Hpow : forall e, 0 <= e -> 0 < 2 ^ e).
  { intros e He. by apply Z.pow_pos_nonneg. }
  (* the quotient is below 2 ^ 53 units of the last place *)
  assert (Hm53 : m <= 2 ^ 53).
  { apply round_half_even_le.
    { unfold scaled_den. pose proof (Hpow (Z.max 0 (q - 52)) ltac:(lia)). lia. }
    revert Hhi. unfold scaled_num, scaled_den.
    destruct (Z.le_gt_cases 0 (q - 52)) as [He|He].
    - rewrite (Z.max_l 0 (- (q + 1))), (Z.max_r 0 (q + 1)),
        (Z.max_l 0 (- (q - 52))), (Z.max_r 0 (q - 52)) by lia.
      replace (q + 1) with (53 + (q - 52)) by lia.
      rewrite Z.pow_add_r by lia. lia.
    - rewrite (Z.max_r 0 (- (q - 52))), (Z.max_l 0 (q - 52)) by lia.
      change (2 ^ 0) with 1.
      destruct (Z.le_gt_cases 0 (q + 1)).
      + rewrite (Z.max_l 0 (- (q + 1))), (Z.max_r 0 (q + 1)) by lia.
        change (2 ^ 0) with 1.
        assert (2 ^ (q + 1) * 2 ^ (- (q - 52)) = 2 ^ 53) as E
          by (rewrite <- Z.pow_add_r by lia; f_equal; lia).
        pose proof (Hpow (- (q - 52)) ltac:(lia)). nia.
      + rewrite (Z.max_r 0 (- (q + 1))), (Z.max_l 0 (q + 1)) by lia.
        change (2 ^ 0) with 1.
        assert (2 ^ (- (q - 52)) = 2 ^ (- (q + 1)) * 2 ^ 53) as ->
          by (rewrite <- Z.pow_add_r by lia; f_equal; lia).
        nia. }
  split.
  - intros Hbig.
    assert (Hq : 1023 <= q).
    { destruct (Z.le_gt_cases 1023 q) as [|Hsmall]; [done|exfalso].
      revert Hhi. unfold scaled_num, scaled_den.
      destruct (Z.le_gt_cases 0 (q + 1)).
      - rewrite (Z.max_l 0 (- (q + 1))), (Z.max_r 0 (q + 1)) by lia.
        change (2 ^ 0) with 1.
        pose proof (Z.pow_le_mono_r 2 (q + 1) 1023 ltac:(lia) ltac:(lia)).
        lia.
      - rewrite (Z.max_r 0 (- (q + 1))), (Z.max_l 0 (q + 1)) by lia.
        change (2 ^ 0) with 1.
        pose proof (Hpow (- (q + 1)) ltac:(lia)). nia. }
    assert (Hnum : scaled_num a (q - 52) = a).
    { unfold scaled_num. rewrite Z.max_l by lia. change (2 ^ 0) with 1. lia. }
    assert (Hden : scaled_den 50 (q - 52) = 50 * 2 ^ (q - 52)).
    { unfold scaled_den. by rewrite Z.max_r by lia. }
    assert (Hlo' : 50 * 2 ^ q <= a).
    { revert Hlo. unfold scaled_num, scaled_den.
      rewrite (Z.max_l 0 (- q)), (Z.max_r 0 q) by lia.
      change (2 ^ 0) with 1. lia. }
    rewrite (Z.max_r 0 (q - 52)) by lia.
    assert (2 ^ 1024 <= m * 2 ^ (q - 52)) as Hover; [|by apply Z.leb_le in Hover as ->].
    pose proof (Hpow (q - 52) ltac:(lia)) as Hpe.
    destruct (Z.le_gt_cases 1024 q) as [Hq'|Hq'].
    + assert (2 ^ 52 <= m).
      { apply round_half_even_ge; [lia|]. rewrite Hnum, Hden.
        replace (2 ^ 52 * (50 * 2 ^ (q - 52))) with (50 * 2 ^ q); [done|].
        replace q with (52 + (q - 52)) at 1 by lia.
        rewrite Z.pow_add_r by lia. lia. }
      pose proof (Z.pow_le_mono_r 2 1024 q ltac:(lia) ltac:(lia)).
      assert (2 ^ q = 2 ^ 52 * 2 ^ (q - 52)) as Eq
        by (rewrite <- Z.pow_add_r by lia; f_equal; lia).
      nia.
    + assert (2 ^ (q - 52) = 2 * P) as Epe
        by (replace (q - 52) with 971 by lia; exact E971).
      assert (2 ^ 53 - 1 + 1 <= m).
      { apply round_half_even_from_half; rewrite ?Hnum, ?Hden, ?Epe;
          [lia|done|lia]. }
      rewrite Epe. nia.
  - intros Hsmall.
    assert (Hq : q <= 1023).
    { destruct (Z.le_gt_cases q 1023) as [|Hbig]; [done|exfalso].
      revert Hlo. unfold scaled_num, scaled_den.
      rewrite (Z.max_l 0 (- q)), (Z.max_r 0 q) by lia.
      change (2 ^ 0) with 1.
      pose proof (Z.pow_le_mono_r 2 1024 q ltac:(lia) ltac:(lia)). lia. }
    assert (m * 2 ^ Z.max 0 (q - 52) < 2 ^ 1024) as Hok.
    { destruct (Z.le_gt_cases (q - 52) 0).
      - rewrite Z.max_l by lia. change (2 ^ 0) with 1. lia.
      - rewrite Z.max_r by lia.
        pose proof (Hpow (q - 52) ltac:(lia)) as Hpe.
        destruct (Z.le_gt_cases q 1022).
        + pose proof (Z.pow_le_mono_r 2 (q - 52) 970 ltac:(lia) ltac:(lia)).
          fold P in H1. nia.
        + assert (2 ^ (q - 52) = 2 * P) as Epe
            by (replace (q - 52) with 971 by lia; exact E971).
          assert (m <= 2 ^ 53 - 1).
          { apply round_half_even_below_half; unfold scaled_num, scaled_den;
              rewrite (Z.max_r 0 (q - 52)), ?(Z.max_l 0 (- (q - 52))), Epe
                by lia; change (2 ^ 0) with 1; lia. }
          rewrite Epe. nia. }
    apply Z.leb_gt in Hok. rewrite Hok. by eexists.
Qed.

(** X18: on a request whose reads return a valid range with an end of
    at least [50 * (2 ^ 1024 - 2 ^ 970)], and of at most 4300 digits,
    the length up to which every version of the JSON decoder takes an
    integer literal, the division of [calculate_pages_needed] raises
    [OverflowError]; both handlers then answer with status 500 and the
    message of that error, without any request to the site, whatever
    the language.  Below that bound the division by 50 returns. *)
Theorem overflow_is_reported (inet : internet) (py_strip : string -> string)
    (rq : request_json) (w : world) (start end_ : Z)
    (language : option jstr) :
  let report :=
    (Response 500
       (JsonError "integer division result too large for a float"), w) in
  read_request py_strip rq = Done (start, end_, language) ->
  1 <= start -> start <= end_ ->
  overflow_from <= end_ -> end_ < 10 ^ 4300 ->
  calculate_pages_needed start end_ = Raise OverflowError /\
  scrape inet py_strip rq w = report /\
  download inet py_strip rq w = report /\
  forall a, 1 <= a -> a < overflow_from -> exists x, truediv a 50 = Ok x.
Proof.
  cbv zeta. intros E H1 H2 H3 _.
  assert (Hraise : calculate_pages_needed start end_ = Raise OverflowError).
  { unfold calculate_pages_needed.
    destruct (truediv_50_overflow start H1) as [Hbig Hsmall].
    destruct (Z.le_gt_cases overflow_from start) as [H|H].
    - by rewrite (Hbig H).
    - destruct (Hsmall H) as [x ->].
      destruct (truediv_50_overflow end_ ltac:(lia)) as [Hbig' _].
      by rewrite (Hbig' H3). }
  assert (Hcall : call_scrape_usernames_range inet start end_ language w
                  = (Failed (str_of_exn OverflowError), w)).
  { unfold call_scrape_usernames_range, scrape_usernames_range.
    rewrite Hraise. by destruct language as [[l|error]|]. }
  split; [done|]. unfold scrape, download. rewrite E.
  assert ((start <? 1) || (end_ <? start) = false) as ->.
  { apply orb_false_iff. rewrite !Z.ltb_ge. done. }
  rewrite Hcall. split_and!; [done..|].
  intros a Ha Hsmall. by apply truediv_50_overflow.
Qed.

(** The range from 1 to the bound itself, a number of 310 digits. *)
Lemma overflow_is_reported_witness :
  calculate_pages_needed 1 overflow_from = Raise OverflowError /\
  status (scrape Sample.offline id
            (RequestJson (Got 1) (Got overflow_from) Missing) empty_world).1
  = 500.
Proof.
  destruct (overflow_is_reported Sample.offline id
              (RequestJson (Got 1) (Got overflow_from) Missing) empty_world
              1 overflow_from None)
    as (Hraise & -> & _);
    [reflexivity|lia|by vm_compute|lia|by vm_compute|].
  split; [exact Hraise|reflexivity].
Defined.

(** ** The name of the downloaded file *)

Lemma pretty_N_go_digits (x : N) (s : string) :
  digits s = true -> digits (pretty_N_go x s) = true.
Proof.
  revert s. induction (N.lt_wf_0 x) as [x _ IH]; intros s Hs.
  assert (x = 0 \/ 0 < x)%N as [->|Hx] by lia.
  - by rewrite pretty_N_go_0.
  - rewrite pretty_N_go_step by done. apply IH.
    + by apply N.div_lt.
    + cbn [digits]. rewrite Hs, andb_true_r.
      unfold pretty_N_char. by repeat case_match.
Qed.

Lemma str_of_int_digits (n : Z) : 0 <= n -> digits (str_of_int n) = true.
Proof.
  intros Hn. unfold str_of_int, pretty, pretty_Z.
  destruct n as [|p|p]; [done| |lia].
  unfold pretty, pretty_positive, pretty, pretty_N.
  rewrite decide_False by done. by apply pretty_N_go_digits.
Qed.

Lemma digits_split (d1 d2 s1 s2 : string) :
  digits d1 = true -> digits d2 = true ->
  after_digits s1 = true -> after_digits s2 = true ->
  d1 +:+ s1 = d2 +:+ s2 -> d1 = d2 /\ s1 = s2.
Proof.
  revert d2. induction d1 as [|c1 d1 IH]; intros [|c2 d2] H1 H2 A1 A2 E.
  - done.
  - destruct s1 as [|c s1]; [done|]. cbn in E. injection E as -> _.
    cbn [digits after_digits] in *.
    apply andb_true_iff in H2 as [H2 _]. by rewrite H2 in A1.
  - destruct s2 as [|c s2]; [done|]. cbn in E. injection E as -> _.
    cbn [digits after_digits] in *.
    apply andb_true_iff in H1 as [H1 _]. by rewrite H1 in A2.
  - cbn in E. injection E as -> E. cbn [digits] in *.
    apply andb_true_iff in H1 as [_ H1]. apply andb_true_iff in H2 as [_ H2].
    by destruct (IH d2 H1 H2 A1 A2 E) as [-> ->].
Qed.

Lemma string_length_app (s t : string) :
  String.length (s +:+ t) = (String.length s + String.length t)%nat.
Proof.
  induction s as [|c s IH]; [done|].
  change (String c s +:+ t) with (String c (s +:+ t)).
  cbn [String.length]. by rewrite IH.
Qed.

Lemma string_app_inj_r (t s1 s2 : string) :
  s1 +:+ t = s2 +:+ t -> s1 = s2.
Proof.
  revert s2. induction s1 as [|c1 s1 IH]; intros [|c2 s2] E.
  - done.
  - apply (f_equal String.length) in E.
    change ("" +:+ t) with t in E.
    change (String c2 s2 +:+ t) with (String c2 (s2 +:+ t)) in E.
    cbn [String.length] in E. rewrite string_length_app in E. lia.
  - apply (f_equal String.length) in E.
    change ("" +:+ t) with t in E.
    change (String c1 s1 +:+ t) with (String c1 (s1 +:+ t)) in E.
    cbn [String.length] in E. rewrite string_length_app in E. lia.
  - cbn in E. injection E as -> E. by rewrite (IH s2 E).
Qed.

(** X19: the name of the downloaded file encodes the range and the
    language filter without loss: two requests with positions from 0
    on that get the same file name have the same start, the same end
    and the same language filter (an empty language being none). *)
Theorem download_name_determines_request (start1 end1 start2 end2 : Z)
    (language1 language2 : option string) :
  0 <= start1 -> 0 <= end1 -> 0 <= start2 -> 0 <= end2 ->
  language1 <> Some "" -> language2 <> Some "" ->
  download_name_of start1 end1 language1
    = download_name_of start2 end2 language2 ->
  start1 = start2 /\ end1 = end2 /\ language1 = language2.
Proof.
  intros Hs1 He1 Hs2 He2 Hl1 Hl2. unfold download_name_of.
  set (suffix l := match l : option string with
                   | Some l => if truthy l then "_" +:+ l else ""
                   | None => ""
                   end).
  change (match language1 with
          | Some l => if truthy l then "_" +:+ l else ""
          | None => ""
          end) with (suffix language1).
  change (match language2 with
          | Some l => if truthy l then "_" +:+ l else ""
          | None => ""
          end) with (suffix language2).
  assert (Hafter : forall l, after_digits (suffix l +:+ ".csv") = true).
  { intros [l|]; [|done]. unfold suffix. by destruct (truthy l). }
  intros E. apply (inj (String.append "twitch_usernames_")) in E.
  apply digits_split in E as [Estart E];
    [|by apply str_of_int_digits..|done|done].
  apply (inj (String.append "_")) in E.
  apply digits_split in E as [Eend E];
    [|by apply str_of_int_digits..|apply Hafter|apply Hafter].
  apply string_app_inj_r in E.
  apply (inj pretty) in Estart, Eend. split_and!; [done..|].
  unfold suffix in E.
  destruct language1 as [l1|], language2 as [l2|]; [| | |done].
  - destruct l1 as [|c1 l1]; [done|]. destruct l2 as [|c2 l2]; [done|].
    cbn in E. by injection E as -> ->.
  - destruct l1 as [|c1 l1]; [done|]. discriminate E.
  - destruct l2 as [|c2 l2]; [done|]. discriminate E.
Qed.

(** The range (1, 23) without language. *)
Lemma download_name_determines_request_witness :
  download_name_of 1 23 None = "twitch_usernames_1_23.csv" /\
  (1 = 1 /\ 23 = 23 /\ @None string = None).
Proof.
  split; [reflexivity|].
  apply (download_name_determines_request 1 23 1 23 None None);
    [lia|lia|lia|lia|discriminate|discriminate|reflexivity].
Defined.

(** ** [scraper.py] as a script *)


(** ** The page list where it is exact *)

(** X21: for all integers [start], [end] with
    [1 <= start <= end <= 50 * 2 ^ 48], [calculate_pages_needed] returns
    exactly the contiguous list of page numbers from [ceil (start / 50)]
    to [ceil (end / 50)] inclusive, the ceilings being the exact ones. *)
Theorem calculate_pages_needed_exact (start end_ : Z) :
  1 <= start -> start <= end_ -> end_ <= 50 * 2 ^ 48 ->
  calculate_pages_needed start end_ =
    Ok (range (ceil_div start 50) (ceil_div end_ 50 + 1)).
Proof.
  intros H1 H2 H3. unfold calculate_pages_needed.
  destruct (truediv_50_ceil start ltac:(lia)) as (qs & -> & ->).
  destruct (truediv_50_ceil end_ ltac:(lia)) as (qe & -> & ->).
  reflexivity.
Qed.

(** The examples of the specification: (1, 150) gives the pages 1, 2
    and 3, and (51, 51) gives page 2. *)
Lemma calculate_pages_needed_exact_witness :
  calculate_pages_needed 1 150 = Ok [1; 2; 3].
Proof.
  exact (calculate_pages_needed_exact 1 150
           ltac:(lia) ltac:(lia) ltac:(vm_compute; discriminate)).
Defined.

Example calculate_pages_needed_51_51 : calculate_pages_needed 51 51 = Ok [2].
Proof. reflexivity. Qed.
